(** * Healthcare data analysis: the report pipeline of [analysis.py]

    The script loads a table of patient encounters, derives a few columns,
    computes overall indicators and grouped summary tables, and writes a
    nested summary to [analysis_results.json].

    Conventions of the embedding.
    - A data frame is the list of its rows, in file order.
    - A numeric cell is [option Q]: [None] is the missing value (NaN).
      Double precision numbers are modelled by exact rationals, so the
      model says nothing about binary rounding noise or overflow: a mean
      or a rounded value of the model can differ from the double of the
      program in its last digit (0.575 is stored just below the tie and
      rounds to 0.57, the exact 23/40 rounds to 0.58).  A statement
      about a rounded value is to be read with this in mind.
    - A cell of a column that a table is grouped by is a [label]: a
      number in a column that [read_csv] reads as numbers, a text in
      any other column.
    - A computed scalar is a [float64]: a rational, an infinity or NaN.
    - An uncaught exception is a [Fault] of the [result] monad.
    - The operations of pandas and numpy are given their documented
      meaning: reductions skip missing cells, [count] counts the cells
      that are not missing, [groupby] sorts its groups by key and leaves
      out the rows without key, [round] rounds half to even, and a
      division of numpy scalars by zero gives NaN or an infinity.
    - What the script only prints and cannot fail on a table of this
      type (the descriptive statistics, the correlations) is left out. *)

From Stdlib Require Import ZArith QArith Qcanon Qround List String Ascii Bool Lia Lqa.
From Stdlib Require Import Sorted Permutation OrdersEx RelationClasses.
From Stdlib Require Import Decimal DecimalString DecimalN.
Import ListNotations.

Local Open Scope Z_scope.

(** ** Faults *)

Inductive fault : Type :=
| ZeroDivision                      (* a Python division by zero; numpy's do not raise *)
| UnparseableDate (text : string)   (* pd.to_datetime cannot read a cell *)
| ArgOfEmpty                        (* idxmax / idxmin of a column without rows *)
| ArgAllMissing                     (* idxmax / idxmin of a column holding only NaN:
                                       pandas 3 raises at once, pandas 2 returns NaN,
                                       which the lookup that follows does not find *)
| IncomparableCells.                (* min / max of a column of texts and empty cells *)

Inductive result (A : Type) : Type :=
| Ok (a : A)
| Fault (f : fault).

Arguments Ok {A} a.
Arguments Fault {A} f.

Definition bind {A B : Type} (m : result A) (k : A -> result B) : result B :=
  match m with
  | Ok a => k a
  | Fault f => Fault f
  end.

Notation "x <- m ;; k" := (bind m (fun x => k))
  (at level 61, m at next level, right associativity).

Fixpoint mapM {A B : Type} (f : A -> result B) (l : list A) : result (list B) :=
  match l with
  | [] => Ok []
  | a :: l' => b <- f a ;; bs <- mapM f l' ;; Ok (b :: bs)
  end.

(** ** Numbers *)

Inductive float64 : Type :=
| Fin (q : Q)
| PInf
| NInf
| NaN.

Definition of_cell (c : option Q) : float64 :=
  match c with
  | Some q => Fin q
  | None => NaN
  end.

Definition Qltb (x y : Q) : bool := negb (Qle_bool y x).

(** [a > b] on scalars; every comparison with NaN is false. *)
Definition float_gt (a b : float64) : bool :=
  match a, b with
  | NaN, _ | _, NaN => false
  | NInf, _ => false
  | _, PInf => false
  | Fin x, Fin y => Qltb y x
  | Fin _, NInf => true
  | PInf, _ => true
  end.

(** [a * k] for a finite factor [k]. *)
Definition fmul (a : float64) (k : Q) : float64 :=
  match a with
  | Fin q => Fin (q * k)
  | NaN => NaN
  | PInf => match k ?= 0 with Gt => PInf | Lt => NInf | Eq => NaN end
  | NInf => match k ?= 0 with Gt => NInf | Lt => PInf | Eq => NaN end
  end%Q.

(** Division of a numpy scalar by a Python integer: a zero divisor gives
    NaN or an infinity (and a warning), never an exception. *)
Definition np_truediv (a : Q) (n : Z) : float64 :=
  if n =? 0 then
    match (a ?= 0)%Q with
    | Eq => NaN
    | Gt => PInf
    | Lt => NInf
    end
  else Fin (a / inject_Z n).

(** Nearest integer, ties to the even neighbour. *)
Definition round_half_even (q : Q) : Z :=
  let f := Qfloor q in
  match (q - inject_Z f ?= 1 # 2)%Q with
  | Lt => f
  | Gt => f + 1
  | Eq => if Z.even f then f else f + 1
  end.

Definition pow10 (d : nat) : Z := 10 ^ Z.of_nat d.

(** [round(q, d)]: the nearest multiple of [10^-d], in lowest terms.
    numpy and Python round the double that stands for [q], which on a
    decimal tie can lie on either side of it, so the last digit of the
    program can differ from this one by a unit. *)
Definition round_to (d : nat) (q : Q) : Q :=
  Qred (inject_Z (round_half_even (q * inject_Z (pow10 d))) / inject_Z (pow10 d)).

Definition fround (d : nat) (a : float64) : float64 :=
  match a with
  | Fin q => Fin (round_to d q)
  | _ => a
  end.

(** ** Columns *)

Fixpoint dropna {A : Type} (col : list (option A)) : list A :=
  match col with
  | [] => []
  | Some a :: col' => a :: dropna col'
  | None :: col' => dropna col'
  end.

Definition Qsum (l : list Q) : Q := fold_right Qplus 0%Q l.

(** [Series.count()]: the number of cells that are not missing. *)
Definition series_count {A : Type} (col : list (option A)) : Z :=
  Z.of_nat (List.length (dropna col)).

(** [Series.sum()]: missing cells are skipped. *)
Definition series_sum (col : list (option Q)) : Q := Qsum (dropna col).

(** [Series.mean()]: the mean of the cells that are not missing. *)
Definition series_mean (col : list (option Q)) : float64 :=
  match dropna col with
  | [] => NaN
  | vals => Fin (Qsum vals / inject_Z (Z.of_nat (List.length vals)))
  end.

Fixpoint insert_sorted (x : Q) (l : list Q) : list Q :=
  match l with
  | [] => [x]
  | y :: l' => if Qle_bool x y then x :: l else y :: insert_sorted x l'
  end.

Definition sort_values (l : list Q) : list Q := fold_right insert_sorted [] l.

(** [Series.median()]: the middle of the sorted cells that are not
    missing, the mean of the two middle ones when their number is even. *)
Definition series_median (col : list (option Q)) : float64 :=
  let vals := sort_values (dropna col) in
  let n := List.length vals in
  match n with
  | O => NaN
  | _ =>
    if Nat.even n
    then Fin ((nth (n / 2 - 1) vals 0 + nth (n / 2) vals 0) / 2)%Q
    else Fin (nth (n / 2) vals 0%Q)
  end.

(** ** Group labels *)

Definition string_cmp : string -> string -> comparison := String_as_OT.compare.

(** A cell of a column that the tables are grouped by.  [read_csv] reads
    a column in which every cell is a number as numbers, and any other
    column as text. *)
Inductive label : Type :=
| Text (s : string)
| Number (q : Qc).

(** The order in which [groupby] sorts its keys: numbers by value, texts
    by code point; where both kinds meet, the numbers come first. *)
Definition label_cmp (a b : label) : comparison :=
  match a, b with
  | Number x, Number y => (x ?= y)%Qc
  | Number _, Text _ => Lt
  | Text _, Number _ => Gt
  | Text s, Text t => string_cmp s t
  end.

(** ** The loaded table *)

(** A cell of a yes/no column as [read_csv] infers it. *)
Inductive cell : Type :=
| Str (s : string)
| Num (q : Q)
| Boolean (b : bool)
| Missing.

Record Timestamp : Type := mkTimestamp {
  ts_year : Z;
  ts_month : Z;
  ts_day : Z
}.

(** A date cell before [pd.to_datetime]. *)
Inductive date_text : Type :=
| Reads (t : Timestamp)     (* text that the parser accepts *)
| Garbled (text : string)   (* text that it rejects *)
| Blank.                    (* empty cell *)

(** One encounter; [D] is the type of the two date columns. *)
Record Row (D : Type) : Type := mkRow {
  patient_id : option string;
  admission_date : D;
  discharge_date : D;
  age : option Q;
  condition : option label;
  treatment_type : option label;
  insurance_type : option label;
  length_of_stay : option Q;
  total_cost : option Q;
  doctor_visits : option Q;
  treatment_success : cell;
  readmitted : cell
}.

Arguments mkRow {D}.
Arguments patient_id {D} r.
Arguments admission_date {D} r.
Arguments discharge_date {D} r.
Arguments age {D} r.
Arguments condition {D} r.
Arguments treatment_type {D} r.
Arguments insurance_type {D} r.
Arguments length_of_stay {D} r.
Arguments total_cost {D} r.
Arguments doctor_visits {D} r.
Arguments treatment_success {D} r.
Arguments readmitted {D} r.

(** The table as [read_csv] returns it, and after the dates are parsed. *)
Abbreviation RawFrame := (list (Row date_text)).
Abbreviation Encounter := (Row (option Timestamp)).
Abbreviation DataFrame := (list (Row (option Timestamp))).

(** ** Step 2: cleaning *)

Definition to_datetime (c : date_text) : result (option Timestamp) :=
  match c with
  | Reads t => Ok (Some t)
  | Garbled s => Fault (UnparseableDate s)
  | Blank => Ok None
  end.

Definition with_dates (r : Row date_text) (a d : option Timestamp) : Encounter :=
  mkRow (patient_id r) a d (age r) (condition r) (treatment_type r)
        (insurance_type r) (length_of_stay r) (total_cost r)
        (doctor_visits r) (treatment_success r) (readmitted r).

Fixpoint assign_dates (raw : RawFrame) (adm dis : list (option Timestamp))
  : DataFrame :=
  match raw, adm, dis with
  | r :: raw', a :: adm', d :: dis' => with_dates r a d :: assign_dates raw' adm' dis'
  | _, _, _ => []
  end.

Record Period : Type := mkPeriod {
  p_year : Z;
  p_month : Z
}.

(** [dt.to_period('M')] *)
Definition to_period_M (t : Timestamp) : Period :=
  mkPeriod (ts_year t) (ts_month t).

Definition admission_month (r : Encounter) : option Period :=
  option_map to_period_M (admission_date r).

(** [.map({'Yes': 1, 'No': 0})]: a value that is not a key of the
    dictionary is mapped to the missing value. *)
Definition map_yes_no (c : cell) : option Z :=
  match c with
  | Str s =>
    if (s =? "Yes")%string then Some 1
    else if (s =? "No")%string then Some 0
    else None
  | _ => None
  end.

Definition success_binary {D} (r : Row D) : option Z :=
  map_yes_no (treatment_success r).

Definition readmitted_binary {D} (r : Row D) : option Z :=
  map_yes_no (readmitted r).

(** The admission column is converted first, then the discharge column;
    the binary columns are derived afterwards and cannot fail. *)
Definition data_cleaning (raw : RawFrame) : result DataFrame :=
  adm <- mapM (fun r => to_datetime (admission_date r)) raw ;;
  dis <- mapM (fun r => to_datetime (discharge_date r)) raw ;;
  Ok (assign_dates raw adm dis).

(** ** Step 3: key metrics *)

Definition binary_column {D} (f : Row D -> option Z) (df : list (Row D))
  : list (option Q) :=
  map (fun r => option_map inject_Z (f r)) df.

Definition total_patients (df : DataFrame) : Z := Z.of_nat (List.length df).

Definition avg_length_stay (df : DataFrame) : float64 :=
  series_mean (map length_of_stay df).

Definition avg_cost (df : DataFrame) : float64 :=
  series_mean (map total_cost df).

Definition success_rate (df : DataFrame) : float64 :=
  fmul (np_truediv (series_sum (binary_column success_binary df)) (total_patients df)) 100.

Definition readmission_rate (df : DataFrame) : float64 :=
  fmul (np_truediv (series_sum (binary_column readmitted_binary df)) (total_patients df)) 100.

(** The number shown by the format [{x:.1f}]. *)
Definition format_1f (x : float64) : float64 := fround 1 x.

Definition printed_success_rate (df : DataFrame) : float64 :=
  format_1f (success_rate df).

Definition printed_readmission_rate (df : DataFrame) : float64 :=
  format_1f (readmission_rate df).

(** ** Grouping *)

Section GroupBy.

Context {K : Type} (cmp : K -> K -> comparison).

(** Groups are kept sorted by key; a row joins the group of its key, at
    the end, or opens a new group at the key's place. *)
Fixpoint add_row (k : K) (r : Encounter) (gs : list (K * DataFrame))
  : list (K * DataFrame) :=
  match gs with
  | [] => [(k, [r])]
  | (k', rows) :: gs' =>
    match cmp k k' with
    | Lt => (k, [r]) :: gs
    | Eq => (k', rows ++ [r]) :: gs'
    | Gt => (k', rows) :: add_row k r gs'
    end
  end.

Definition add_keyed (key : Encounter -> option K) (gs : list (K * DataFrame))
           (r : Encounter) : list (K * DataFrame) :=
  match key r with
  | Some k => add_row k r gs
  | None => gs               (* a row without key is in no group *)
  end.

(** [df.groupby(key)]: one group per key that occurs, in key order; the
    rows of a group in table order. *)
Definition groupby (key : Encounter -> option K) (df : DataFrame)
  : list (K * DataFrame) :=
  fold_left (add_keyed key) df [].

End GroupBy.

Definition period_cmp (p q : Period) : comparison :=
  match p_year p ?= p_year q with
  | Eq => p_month p ?= p_month q
  | c => c
  end.

(** ** Step 4: analysis by condition *)

Module ByCondition.
Record t : Type := mk {
  condition : label;
  Patient_Count : Z;
  Avg_Stay_Days : float64;
  Avg_Cost : float64;
  Success_Rate : float64;
  Readmission_Rate : float64
}.
End ByCondition.

(** [(column * 100).round(1)] *)
Definition to_percent (x : float64) : float64 := fround 1 (fmul x 100).

(** The aggregation rounds every mean to two digits; the two rate columns
    are then turned into percentages. *)
Definition condition_row (g : label * DataFrame) : ByCondition.t :=
  let rows := snd g in
  ByCondition.mk
    (fst g)
    (series_count (map patient_id rows))
    (fround 2 (series_mean (map length_of_stay rows)))
    (fround 2 (series_mean (map total_cost rows)))
    (to_percent (fround 2 (series_mean (binary_column success_binary rows))))
    (to_percent (fround 2 (series_mean (binary_column readmitted_binary rows)))).

Definition condition_stats (df : DataFrame) : list ByCondition.t :=
  map condition_row (groupby label_cmp condition df).

(** The label of the first best cell among those that are not missing. *)
Fixpoint arg_best {K : Type} (better : float64 -> float64 -> bool)
         (col : list (K * float64)) : option (K * float64) :=
  match col with
  | [] => None
  | (k, v) :: col' =>
    match v with
    | NaN => arg_best better col'
    | _ =>
      match arg_best better col' with
      | Some (k', v') => if better v' v then Some (k', v') else Some (k, v)
      | None => Some (k, v)
      end
    end
  end.

Definition idx_best {K : Type} (better : float64 -> float64 -> bool)
           (col : list (K * float64)) : result K :=
  match col with
  | [] => Fault ArgOfEmpty
  | _ =>
    match arg_best better col with
    | Some (k, _) => Ok k
    | None => Fault ArgAllMissing
    end
  end.

Definition idxmax {K : Type} : list (K * float64) -> result K :=
  idx_best float_gt.

Definition idxmin {K : Type} : list (K * float64) -> result K :=
  idx_best (fun a b => float_gt b a).

Definition Success_Rate_column (cs : list ByCondition.t) : list (label * float64) :=
  map (fun e => (ByCondition.condition e, ByCondition.Success_Rate e)) cs.

Definition Avg_Cost_column (cs : list ByCondition.t) : list (label * float64) :=
  map (fun e => (ByCondition.condition e, ByCondition.Avg_Cost e)) cs.

Record Findings : Type := mkFindings {
  best_condition : label;
  worst_condition : label;
  most_expensive : label
}.

Definition key_findings (cs : list ByCondition.t) : result Findings :=
  best <- idxmax (Success_Rate_column cs) ;;
  worst <- idxmin (Success_Rate_column cs) ;;
  dearest <- idxmax (Avg_Cost_column cs) ;;
  Ok (mkFindings best worst dearest).

(** ** Step 5: analysis by treatment type *)

Module ByTreatment.
Record t : Type := mk {
  treatment_type : label;
  Patient_Count : Z;
  Avg_Cost : float64;
  Success_Rate : float64;
  Avg_Stay : float64
}.
End ByTreatment.

Definition treatment_row (g : label * DataFrame) : ByTreatment.t :=
  let rows := snd g in
  ByTreatment.mk
    (fst g)
    (series_count (map patient_id rows))
    (fround 2 (series_mean (map total_cost rows)))
    (to_percent (fround 2 (series_mean (binary_column success_binary rows))))
    (fround 2 (series_mean (map length_of_stay rows))).

Definition treatment_stats (df : DataFrame) : list ByTreatment.t :=
  map treatment_row (groupby label_cmp treatment_type df).

(** ** Step 6: analysis by age group *)

Inductive AgeGroup : Type := Young | Middle | Senior | Elderly.

Definition age_label (g : AgeGroup) : string :=
  match g with
  | Young => "Young (18-35)"
  | Middle => "Middle (36-50)"
  | Senior => "Senior (51-65)"
  | Elderly => "Elderly (66+)"
  end.

Definition AgeGroup_eqb (a b : AgeGroup) : bool :=
  match a, b with
  | Young, Young | Middle, Middle | Senior, Senior | Elderly, Elderly => true
  | _, _ => false
  end.

Definition age_bins : list Q := [0; 35; 50; 65; 100]%Q.
Definition age_labels : list AgeGroup := [Young; Middle; Senior; Elderly].

Section Cut.

Context {L : Type}.

(** The label of the first interval [(lo, hi]] that holds [x]. *)
Fixpoint cut_from (lo : Q) (bins : list Q) (labels : list L) (x : Q) : option L :=
  match bins, labels with
  | hi :: bins', l :: labels' =>
    if Qltb lo x && Qle_bool x hi then Some l else cut_from hi bins' labels' x
  | _, _ => None
  end.

(** [pd.cut(x, bins, labels)] with the default right-closed intervals
    and without [include_lowest]. *)
Definition pd_cut (bins : list Q) (labels : list L) (x : option Q) : option L :=
  match x, bins with
  | Some v, lo :: rest => cut_from lo rest labels v
  | _, _ => None
  end.

End Cut.

Definition age_group {D} (r : Row D) : option AgeGroup :=
  pd_cut age_bins age_labels (age r).

Definition has_category {L : Type} (eqb : L -> L -> bool)
           (key : Encounter -> option L) (c : L) (r : Encounter) : bool :=
  match key r with
  | Some c' => eqb c' c
  | None => false
  end.

Definition nonempty_group {L : Type} (g : L * DataFrame) : bool :=
  match snd g with
  | [] => false
  | _ => true
  end.

(** Grouping by a categorical column: the groups follow the order of the
    categories.  With [observed = false] (the default before pandas 3)
    every category has a group, possibly empty; with [observed = true]
    only the categories that occur. *)
Definition groupby_categorical {L : Type} (observed : bool) (eqb : L -> L -> bool)
           (categories : list L) (key : Encounter -> option L) (df : DataFrame)
  : list (L * DataFrame) :=
  let all := map (fun c => (c, filter (has_category eqb key c) df)) categories in
  if observed then filter nonempty_group all else all.

Module ByAgeGroup.
Record t : Type := mk {
  age_group : string;
  Patient_Count : Z;
  Avg_Cost : float64;
  Avg_Stay : float64;
  Success_Rate : float64
}.
End ByAgeGroup.

Definition age_row (g : AgeGroup * DataFrame) : ByAgeGroup.t :=
  let rows := snd g in
  ByAgeGroup.mk
    (age_label (fst g))
    (series_count (map patient_id rows))
    (fround 2 (series_mean (map total_cost rows)))
    (fround 2 (series_mean (map length_of_stay rows)))
    (to_percent (fround 2 (series_mean (binary_column success_binary rows)))).

Definition age_groups (observed : bool) (df : DataFrame) : list (AgeGroup * DataFrame) :=
  groupby_categorical observed AgeGroup_eqb age_labels age_group df.

Definition age_analysis (observed : bool) (df : DataFrame) : list ByAgeGroup.t :=
  map age_row (age_groups observed df).

(** ** Step 7: analysis by insurance type *)

Module ByInsurance.
Record t : Type := mk {
  insurance_type : label;
  Patient_Count : Z;
  Avg_Cost : float64;
  Avg_Stay : float64
}.
End ByInsurance.

Definition insurance_row (g : label * DataFrame) : ByInsurance.t :=
  let rows := snd g in
  ByInsurance.mk
    (fst g)
    (series_count (map patient_id rows))
    (fround 2 (series_mean (map total_cost rows)))
    (fround 2 (series_mean (map length_of_stay rows))).

Definition insurance_stats (df : DataFrame) : list ByInsurance.t :=
  map insurance_row (groupby label_cmp insurance_type df).

(** ** Step 8: monthly trends *)

Module Monthly.
Record t : Type := mk {
  admission_month : Period;
  Admissions : Z;
  Avg_Cost : float64
}.
End Monthly.

Definition monthly_row (g : Period * DataFrame) : Monthly.t :=
  let rows := snd g in
  Monthly.mk
    (fst g)
    (series_count (map patient_id rows))
    (fround 2 (series_mean (map total_cost rows))).

Definition monthly_trends (df : DataFrame) : list Monthly.t :=
  map monthly_row (groupby period_cmp admission_month df).

(** ** Step 9: cost optimisation *)

Definition expensive_long_stay (df : DataFrame) : DataFrame :=
  filter (fun r =>
            float_gt (of_cell (total_cost r)) (series_median (map total_cost df))
            && float_gt (of_cell (length_of_stay r))
                        (series_median (map length_of_stay df)))
         df.

(** ** Step 11: the dashboard file *)

Module Summary.
Record t : Type := mk {
  total_patients : Z;
  avg_stay : float64;
  avg_cost : float64;
  success_rate : float64;
  readmission_rate : float64
}.
End Summary.

Module Trend.
Record t : Type := mk {
  month : string;
  admissions : Z;
  avg_cost : float64
}.
End Trend.

Module Dashboard.
Record t : Type := mk {
  summary : Summary.t;
  by_condition : list ByCondition.t;
  by_treatment : list ByTreatment.t;
  by_age_group : list ByAgeGroup.t;
  monthly_trends : list Trend.t
}.
End Dashboard.

Definition digit (n : Z) : ascii := ascii_of_nat (48 + Z.to_nat (n mod 10)).

(** [str] of a monthly period: [YYYY-MM]. *)
Definition period_str (p : Period) : string :=
  let y := p_year p in
  let m := p_month p in
  String (digit (y / 1000)) (String (digit (y / 100)) (String (digit (y / 10))
    (String (digit y) (String "-" (String (digit (m / 10)) (String (digit m) "")))))).

Definition trend_record (row : Monthly.t) : Trend.t :=
  Trend.mk (period_str (Monthly.admission_month row))
           (Monthly.Admissions row)
           (fround 2 (Monthly.Avg_Cost row)).

Definition summary (df : DataFrame) : Summary.t :=
  Summary.mk (total_patients df)
             (fround 1 (avg_length_stay df))
             (fround 2 (avg_cost df))
             (fround 1 (success_rate df))
             (fround 1 (readmission_rate df)).

Definition dashboard_data (observed : bool) (df : DataFrame) : Dashboard.t :=
  Dashboard.mk (summary df)
               (condition_stats df)
               (treatment_stats df)
               (age_analysis observed df)
               (map trend_record (monthly_trends df)).

(** ** The numbers of the results file as text *)

(** A number of the file as Python reads it back: a literal without a
    fraction is an [int], one with a fraction (or one of the three
    names) a [float]. *)
Inductive json_number : Type :=
| JInt (z : Z)
| JFloat (x : float64).

Definition digits_of (n : Z) : uint := N.to_uint (Z.to_N n).

Definition number_of (u : uint) : Z := Z.of_N (N.of_uint u).

(** [json.dump] of a Python [int]. *)
Definition json_dumps_int (z : Z) : string :=
  if z <? 0 then String "-" (NilEmpty.string_of_uint (digits_of (- z)))
  else NilEmpty.string_of_uint (digits_of z).

Definition cons_digit (d : Z) (u : uint) : uint :=
  match d with
  | 0 => D0 u | 1 => D1 u | 2 => D2 u | 3 => D3 u | 4 => D4 u
  | 5 => D5 u | 6 => D6 u | 7 => D7 u | 8 => D8 u | _ => D9 u
  end.

(** The digits of a fraction [0 <= r < 1], until nothing is left of it; a
    double has no more than 17 significant digits. *)
Fixpoint fraction_digits (fuel : nat) (r : Q) : uint :=
  match fuel with
  | O => Nil
  | S fuel' =>
    let t := (r * 10)%Q in
    let d := Qfloor t in
    let rest := (t - inject_Z d)%Q in
    cons_digit d (if Qeq_bool rest 0 then Nil else fraction_digits fuel' rest)
  end.

(** [repr] of a number that is not negative: its digits before the
    point, the point, and at least one digit after it.  This is the
    notation of [repr] from 0.0001 up to 1e16, and the digits are those
    of [repr] for a number of few digits, such as one rounded to one or
    two digits; the notation with an exponent, which [repr] uses beyond
    that range, is not modelled. *)
Definition positional (q : Q) : string :=
  let i := Qfloor q in
  (NilEmpty.string_of_uint (digits_of i) ++ "."
   ++ NilEmpty.string_of_uint (fraction_digits 17 (q - inject_Z i)))%string.

(** [json.dump] of a Python [float]; with the default [allow_nan] the
    three values that are no numbers of JSON are written by name. *)
Definition json_dumps_float (x : float64) : string :=
  match x with
  | NaN => "NaN"
  | PInf => "Infinity"
  | NInf => "-Infinity"
  | Fin q => if Qltb q 0 then String "-" (positional (- q)) else positional q
  end.

Fixpoint fraction_value (u : uint) : Q :=
  match u with
  | Nil => 0
  | D0 u' => (0 + fraction_value u') / 10
  | D1 u' => (1 + fraction_value u') / 10
  | D2 u' => (2 + fraction_value u') / 10
  | D3 u' => (3 + fraction_value u') / 10
  | D4 u' => (4 + fraction_value u') / 10
  | D5 u' => (5 + fraction_value u') / 10
  | D6 u' => (6 + fraction_value u') / 10
  | D7 u' => (7 + fraction_value u') / 10
  | D8 u' => (8 + fraction_value u') / 10
  | D9 u' => (9 + fraction_value u') / 10
  end%Q.

Fixpoint split_at_point (s : string) : option (string * string) :=
  match s with
  | EmptyString => None
  | String c s' =>
    if Ascii.eqb c "." then Some (EmptyString, s')
    else option_map (fun p => (String c (fst p), snd p)) (split_at_point s')
  end.

(** The digits of a literal before its point: at least one, and no zero
    in front of another digit. *)
Definition natural_of (s : string) : option Z :=
  match NilEmpty.uint_of_string s with
  | Some u => if uint_beq (unorm u) u then Some (number_of u) else None
  | None => None
  end.

Inductive literal : Type :=
| Whole (n : Z)
| Fraction (q : Q).

Definition unsigned_literal (s : string) : option literal :=
  match split_at_point s with
  | Some (a, b) =>
    match natural_of a, NilEmpty.uint_of_string b with
    | Some i, Some Nil => None
    | Some i, Some f => Some (Fraction (inject_Z i + fraction_value f))
    | _, _ => None
    end
  | None => option_map Whole (natural_of s)
  end.

Definition signed (negative : bool) (l : literal) : json_number :=
  match l with
  | Whole n => JInt (if negative then - n else n)
  | Fraction q => JFloat (Fin (Qred (if negative then - q else q)))
  end.

(** [json.load] of a number: one of the three names, or an optional
    sign, digits and an optional fraction (literals with an exponent are
    not modelled).  The number read is in lowest terms. *)
Definition json_loads_number (s : string) : option json_number :=
  if (s =? "NaN")%string then Some (JFloat NaN)
  else if (s =? "Infinity")%string then Some (JFloat PInf)
  else if (s =? "-Infinity")%string then Some (JFloat NInf)
  else
    match s with
    | String c s' =>
      if Ascii.eqb c "-" then option_map (signed true) (unsigned_literal s')
      else option_map (signed false) (unsigned_literal s)
    | EmptyString => None
    end.

(** The members of the [summary] object of the file, each with the text
    of its number, in the order of the dictionary. *)
Definition summary_items (s : Summary.t) : list (string * string) :=
  [ ("total_patients", json_dumps_int (Summary.total_patients s));
    ("avg_stay", json_dumps_float (Summary.avg_stay s));
    ("avg_cost", json_dumps_float (Summary.avg_cost s));
    ("success_rate", json_dumps_float (Summary.success_rate s));
    ("readmission_rate", json_dumps_float (Summary.readmission_rate s)) ]%string.

Fixpoint member (key : string) (items : list (string * string)) : option string :=
  match items with
  | [] => None
  | (k, text) :: items' => if (k =? key)%string then Some text else member key items'
  end.

Definition loaded (key : string) (items : list (string * string)) : option json_number :=
  match member key items with
  | Some text => json_loads_number text
  | None => None
  end.

Definition as_float (n : json_number) : float64 :=
  match n with
  | JInt z => Fin (inject_Z z)
  | JFloat x => x
  end.

(** The summary scalars of a file that is read back. *)
Definition read_summary (items : list (string * string)) : option Summary.t :=
  match loaded "total_patients" items with
  | Some (JInt n) =>
    match loaded "avg_stay" items, loaded "avg_cost" items,
          loaded "success_rate" items, loaded "readmission_rate" items with
    | Some a, Some c, Some s, Some r =>
      Some (Summary.mk n (as_float a) (as_float c) (as_float s) (as_float r))
    | _, _, _, _ => None
    end
  | _ => None
  end.

(** Python's [==] on floats: NaN is equal to nothing, not even to
    itself. *)
Definition float_eq (a b : float64) : bool :=
  match a, b with
  | Fin x, Fin y => Qeq_bool x y
  | PInf, PInf | NInf, NInf => true
  | _, _ => false
  end.

(** The five scalars compare equal, one by one. *)
Definition summary_eq (a b : Summary.t) : bool :=
  (Summary.total_patients a =? Summary.total_patients b)
  && float_eq (Summary.avg_stay a) (Summary.avg_stay b)
  && float_eq (Summary.avg_cost a) (Summary.avg_cost b)
  && float_eq (Summary.success_rate a) (Summary.success_rate b)
  && float_eq (Summary.readmission_rate a) (Summary.readmission_rate b).

(** ** The run *)

Definition is_blank (c : date_text) : bool :=
  match c with
  | Blank => true
  | _ => false
  end.

(** [Series.min()] or [Series.max()] of a date column as it was loaded
    (line 27 prints both before the dates are parsed).  Texts compare as
    texts.  A column that holds texts and empty cells is a column of
    objects, and a text does not compare with an empty cell (pandas 2;
    the string columns that pandas 3 infers skip the empty cells, which
    is not modelled).  A column without any text is a column of NaN. *)
Definition date_extreme (col : list date_text) : result unit :=
  if existsb is_blank col && existsb (fun c => negb (is_blank c)) col
  then Fault IncomparableCells
  else Ok tt.

(** Step 1, as far as it can fail on a table of this type: the least
    admission date is printed first, then the greatest discharge date. *)
Definition dataset_overview (raw : RawFrame) : result unit :=
  _ <- date_extreme (map admission_date raw) ;;
  date_extreme (map discharge_date raw).

(** Steps 3 to 11 on the cleaned table.  [Ok d]: the run reached step 11
    and wrote [d] to the results file.  [Fault f]: the run died of [f]
    before the file was opened.  The only step that can raise on a table
    of this type is the search for the best and worst condition.  (Step
    12 only prints, after the file is closed; its [upper()] raises on a
    condition that was read as a number.) *)
Definition analysis (observed : bool) (df : DataFrame) : result Dashboard.t :=
  _ <- key_findings (condition_stats df) ;;
  Ok (dashboard_data observed df).

(** The script from the loaded table to the file. *)
Definition script (observed : bool) (raw : RawFrame) : result Dashboard.t :=
  _ <- dataset_overview raw ;;
  df <- data_cleaning raw ;;
  analysis observed df.

(** ** Sample tables *)

Definition on_day (y m d : Z) : option Timestamp := Some (mkTimestamp y m d).

(** An encounter with the given identifier, admission day, age, condition,
    stay, cost and outcome; the other columns are filled in. *)
Definition encounter (pid : string) (adm : option Timestamp) (a : Q)
           (cond : string) (stay cost : Q) (outcome : cell) : Encounter :=
  mkRow (Some pid) adm adm (Some a) (Some (Text cond)) (Some (Text "Medication"))
        (Some (Text "Private")) (Some stay) (Some cost) (Some 1%Q)
        outcome (Str "No").

(** Costs 100, 200, 300 and stays 1, 2, 3. *)
Definition three_encounters : DataFrame :=
  [ encounter "P1" (on_day 2023 1 10) 40 "Flu" 1 100 (Str "Yes");
    encounter "P2" (on_day 2023 2 11) 50 "Flu" 2 200 (Str "No");
    encounter "P3" (on_day 2023 3 12) 60 "Flu" 3 300 (Str "No") ].

(** Ages 35, 36, 101 and 0. *)
Definition four_ages : DataFrame :=
  [ encounter "P1" (on_day 2023 1 10) 35 "Flu" 1 100 (Str "Yes");
    encounter "P2" (on_day 2023 1 11) 36 "Flu" 2 200 (Str "No");
    encounter "P3" (on_day 2023 1 12) 101 "Flu" 3 300 (Str "No");
    encounter "P4" (on_day 2023 1 13) 0 "Flu" 4 400 (Str "Yes") ].

(** One success out of two, the other outcome being neither Yes nor No. *)
Definition yes_and_maybe : DataFrame :=
  [ encounter "P1" (on_day 2023 1 10) 40 "Flu" 1 100 (Str "Yes");
    encounter "P2" (on_day 2023 1 11) 50 "Flu" 2 200 (Str "Maybe") ].

(** A single encounter whose outcome is spelled in lower case. *)
Definition lowercase_yes : DataFrame :=
  [ encounter "P1" (on_day 2023 1 10) 40 "Flu" 1 100 (Str "yes") ].

(** A row whose identifier cell is empty. *)
Definition anonymous : Encounter :=
  mkRow None (on_day 2023 1 10) (on_day 2023 1 12) (Some 40%Q) (Some (Text "Flu"))
        (Some (Text "Surgery")) (Some (Text "Private")) (Some 2%Q) (Some 100%Q)
        (Some 1%Q) (Str "Yes") (Str "No").

(** Admissions out of order, over three months of two years. *)
Definition out_of_order : DataFrame :=
  [ encounter "P1" (on_day 2023 2 10) 40 "Flu" 1 100 (Str "Yes");
    encounter "P2" (on_day 2022 12 11) 50 "Asthma" 2 200 (Str "No");
    encounter "P3" (on_day 2023 1 12) 60 "Flu" 3 300 (Str "No");
    encounter "P4" (on_day 2022 12 30) 70 "Flu" 3 300 (Str "Yes") ].

Definition raw_encounter (pid : string) (adm : date_text) (outcome again : cell)
  : Row date_text :=
  mkRow (Some pid) adm adm (Some 40%Q) (Some (Text "Flu")) (Some (Text "Surgery"))
        (Some (Text "Private")) (Some 2%Q) (Some 100%Q) (Some 1%Q) outcome again.

Definition raw_with_odd_values : RawFrame :=
  [ raw_encounter "P1" (Reads (mkTimestamp 2023 1 10)) (Str "yes") (Str "No");
    raw_encounter "P2" (Reads (mkTimestamp 2023 1 11)) (Str "Yes") (Boolean true) ].


(** Two conditions that the file writes as the numbers 10 and 9, with
    the same outcome and the same cost. *)
Definition numbered_conditions : DataFrame :=
  [ mkRow (Some "P1"%string) (on_day 2023 1 10) (on_day 2023 1 12) (Some 40%Q)
          (Some (Number (Q2Qc 10))) (Some (Text "Surgery")) (Some (Text "Private"))
          (Some 2%Q) (Some 100%Q) (Some 1%Q) (Str "Yes") (Str "No");
    mkRow (Some "P2"%string) (on_day 2023 1 11) (on_day 2023 1 13) (Some 50%Q)
          (Some (Number (Q2Qc 9))) (Some (Text "Surgery")) (Some (Text "Private"))
          (Some 2%Q) (Some 100%Q) (Some 1%Q) (Str "Yes") (Str "No") ].

(** A single encounter whose length of stay is not recorded. *)
Definition no_stays : DataFrame :=
  [ mkRow (Some "P1"%string) (on_day 2023 1 10) (on_day 2023 1 12) (Some 40%Q)
          (Some (Text "Flu")) (Some (Text "Surgery")) (Some (Text "Private"))
          None (Some 100%Q) (Some 1%Q) (Str "Yes") (Str "No") ].


(** ** Auxiliary predicates of the statements *)





Definition is_digit (c : ascii) : bool :=
  (48 <=? nat_of_ascii c)%nat && (nat_of_ascii c <=? 57)%nat.

Fixpoint numeral (s : string) : bool :=
  match s with
  | EmptyString => true
  | String c s' => is_digit c && numeral s'
  end.

Definition starts_with_digit (s : string) : bool :=
  match s with
  | String c _ => is_digit c
  | EmptyString => false
  end.

Definition Zsum (l : list Z) : Z := fold_right Z.add 0 l.

(** The cell holds exactly Yes or No. *)
Definition yes_or_no (c : cell) : Prop := c = Str "Yes" \/ c = Str "No".

Definition readable (c : date_text) : Prop :=
  match c with
  | Garbled _ => False
  | _ => True
  end.

Definition same_key {K : Type} (cmp : K -> K -> comparison) (a b : K) : bool :=
  match cmp a b with
  | Eq => true
  | _ => false
  end.

Definition keys {K : Type} (gs : list (K * DataFrame)) : list K := map fst gs.

(** The rows that the groups [gs] file under [k]. *)
Fixpoint group_of {K : Type} (cmp : K -> K -> comparison) (k : K)
         (gs : list (K * DataFrame)) : DataFrame :=
  match gs with
  | [] => []
  | (k', rows) :: gs' => if same_key cmp k k' then rows else group_of cmp k gs'
  end.

(** The rows of [df] whose key is [k]. *)
Definition rows_of {K : Type} (cmp : K -> K -> comparison)
           (key : Encounter -> option K) (k : K) (df : DataFrame) : DataFrame :=
  filter (has_category (same_key cmp) key k) df.

Definition bucketed (r : Encounter) : bool :=
  match age_group r with
  | Some _ => true
  | None => false
  end.

(** The number of values strictly above [m]. *)
Definition count_above (m : Q) (l : list Q) : nat :=
  List.length (filter (Qltb m) l).

(** The bounds of a pandas timestamp, as far as its month is concerned. *)
Definition in_timestamp_range (t : Timestamp) : Prop :=
  1677 <= ts_year t <= 2262 /\ 1 <= ts_month t <= 12.

(** Chronological order of months. *)
Definition period_lt (p q : Period) : Prop :=
  p_year p < p_year q \/ (p_year p = p_year q /\ p_month p < p_month q).

(** ** Auxiliary definitions of the further statements *)

Definition is_nan (v : float64) : bool :=
  match v with
  | NaN => true
  | _ => false
  end.

(** None of the four averages and rates of the summary is NaN. *)
Definition no_nan (s : Summary.t) : bool :=
  negb (is_nan (Summary.avg_stay s)) && negb (is_nan (Summary.avg_cost s))
  && negb (is_nan (Summary.success_rate s)) && negb (is_nan (Summary.readmission_rate s)).

Definition label_lt (a b : label) : Prop := label_cmp a b = Lt.

(** [name] is the condition of the first record of [cs] whose [value] is
    the best one: the record is there, its value is not missing, no value
    of the table is better, and every record whose condition comes
    earlier in the order of the table (numbers by value, texts by code
    point) has a strictly worse value. *)
Definition first_best (cs : list ByCondition.t) (value : ByCondition.t -> float64)
           (better : float64 -> float64 -> bool) (name : label) : Prop :=
  exists e,
    In e cs /\ ByCondition.condition e = name /\ is_nan (value e) = false
    /\ (forall e', In e' cs -> is_nan (value e') = false ->
                   better (value e') (value e) = false)
    /\ (forall e', In e' cs -> is_nan (value e') = false ->
                   label_lt (ByCondition.condition e') name ->
                   better (value e) (value e') = true).

(** The timestamp of a date cell that can be read; none for an empty cell. *)
Definition parsed (c : date_text) : option Timestamp :=
  match c with
  | Reads t => Some t
  | _ => None
  end.

Definition clean_row (r : Row date_text) : Encounter :=
  with_dates r (parsed (admission_date r)) (parsed (discharge_date r)).

(** A rate of a grouped table: missing, or a whole number of percent
    between 0 and 100. *)
Definition whole_percentage_or_missing (x : float64) : Prop :=
  x = NaN \/ exists (q : Q) (z : Z), x = Fin q /\ (q == inject_Z z)%Q /\ 0 <= z <= 100.

(** [table] has one record for each key that [column] takes in [df], in
    strictly increasing order of the keys, and the record of a key counts
    the identified rows of that key. *)
Definition keyed_table {K T : Type} (cmp : K -> K -> comparison)
           (key_of : T -> K) (count_of : T -> Z)
           (column : Encounter -> option K) (df : DataFrame) (table : list T) : Prop :=
  StronglySorted (fun a b => cmp a b = Lt) (map key_of table)
  /\ NoDup (map key_of table)
  /\ (forall k, In k (map key_of table) <-> exists r, In r df /\ column r = Some k)
  /\ (forall e, In e table ->
                count_of e = series_count (map patient_id (rows_of cmp column (key_of e) df)))
  /\ Zsum (map count_of table) <= Z.of_nat (List.length df).

(** Two encounters of the same cost. *)
Definition same_cost_twice : DataFrame :=
  [ encounter "P1" (on_day 2023 1 10) 40 "Flu" 1 150 (Str "Yes");
    encounter "P2" (on_day 2023 1 11) 50 "Flu" 2 (300 # 2) (Str "No") ].

(** * Properties *)

(** ** Columns *)

Lemma dropna_app {A : Type} (c1 c2 : list (option A)) :
  dropna (c1 ++ c2) = dropna c1 ++ dropna c2.
Proof.
  induction c1 as [|[a|] c1 IH]; simpl; [reflexivity | f_equal; exact IH | exact IH].
Qed.

Lemma series_count_app {A : Type} (c1 c2 : list (option A)) :
  series_count (c1 ++ c2) = series_count c1 + series_count c2.
Proof.
  unfold series_count. rewrite dropna_app, length_app. lia.
Qed.

Lemma series_count_cons {A : Type} (c : option A) (col : list (option A)) :
  series_count (c :: col) = series_count [c] + series_count col.
Proof.
  exact (series_count_app [c] col).
Qed.

Lemma series_count_all_present {A B : Type} (f : A -> option B) (l : list A) :
  (forall a, In a l -> f a <> None) ->
  series_count (map f l) = Z.of_nat (List.length l).
Proof.
  unfold series_count. induction l as [|a l IH]; intros Hall; [reflexivity|].
  cbn [map dropna]. destruct (f a) eqn:Hfa.
  - cbn [List.length]. rewrite !Nat2Z.inj_succ. f_equal. apply IH.
    intros x Hx. apply Hall. now right.
  - exfalso. apply (Hall a); [now left | exact Hfa].
Qed.

(** ** Grouping *)

Section GroupByFacts.

Context {K : Type} (cmp : K -> K -> comparison).

Hypothesis cmp_eq : forall a b, cmp a b = Eq <-> a = b.
Hypothesis cmp_trans : forall a b c, cmp a b = Lt -> cmp b c = Lt -> cmp a c = Lt.
Hypothesis cmp_gt : forall a b, cmp a b = Gt -> cmp b a = Lt.

Let before (a b : K) : Prop := cmp a b = Lt.

Lemma same_key_refl k : same_key cmp k k = true.
Proof.
  unfold same_key. now rewrite (proj2 (cmp_eq k k) eq_refl).
Qed.

Lemma same_key_true a b : same_key cmp a b = true <-> a = b.
Proof.
  unfold same_key. rewrite <- cmp_eq. destruct (cmp a b); split; congruence.
Qed.

Lemma cmp_irrefl k : cmp k k <> Lt.
Proof.
  rewrite (proj2 (cmp_eq k k) eq_refl). discriminate.
Qed.

Lemma keys_add_row k r gs x :
  In x (keys (add_row cmp k r gs)) -> x = k \/ In x (keys gs).
Proof.
  induction gs as [|[k' rows] gs IH]; simpl.
  - intros [<-|[]]. now left.
  - destruct (cmp k k'); simpl.
    + tauto.
    + intros [<-|H]; tauto.
    + intros [<-|H]; [tauto|]. destruct (IH H); tauto.
Qed.

Lemma add_row_sorted k r gs :
  StronglySorted before (keys gs) ->
  StronglySorted before (keys (add_row cmp k r gs)).
Proof.
  induction gs as [|[k' rows] gs IH]; simpl; intros Hs.
  - repeat constructor.
  - inversion Hs as [|? ? Hs' Hall]; subst.
    destruct (cmp k k') eqn:Hc; simpl.
    + constructor; assumption.
    + constructor; [exact Hs|]. constructor; [exact Hc|].
      eapply Forall_impl; [|exact Hall]. intros x Hx. exact (cmp_trans _ _ _ Hc Hx).
    + constructor; [apply IH; exact Hs'|].
      apply Forall_forall. intros x Hx.
      destruct (keys_add_row _ _ _ _ Hx) as [->|Hin].
      * apply cmp_gt, Hc.
      * rewrite Forall_forall in Hall. now apply Hall.
Qed.

Lemma fold_add_sorted key df gs :
  StronglySorted before (keys gs) ->
  StronglySorted before (keys (fold_left (add_keyed cmp key) df gs)).
Proof.
  revert gs. induction df as [|r df IH]; simpl; intros gs Hs; [exact Hs|].
  apply IH. unfold add_keyed. destruct (key r); [now apply add_row_sorted | exact Hs].
Qed.

(** The keys of a grouping are strictly increasing. *)
Lemma groupby_sorted key df :
  StronglySorted before (keys (groupby cmp key df)).
Proof.
  apply fold_add_sorted. constructor.
Qed.

Lemma group_of_absent k gs :
  Forall (before k) (keys gs) -> group_of cmp k gs = [].
Proof.
  induction gs as [|[k' rows] gs IH]; simpl; intros Hall; [reflexivity|].
  inversion Hall as [|? ? Hk Hrest]; subst.
  unfold same_key. unfold before in Hk. rewrite Hk. now apply IH.
Qed.

Lemma group_of_add_same k r gs :
  StronglySorted before (keys gs) ->
  group_of cmp k (add_row cmp k r gs) = group_of cmp k gs ++ [r].
Proof.
  induction gs as [|[k' rows] gs IH]; intros Hs.
  - simpl. now rewrite same_key_refl.
  - inversion Hs as [|? ? Hs' Hall]; subst.
    cbn [add_row group_of]. unfold same_key at 1. destruct (cmp k k') eqn:Hc.
    + cbn [group_of]. unfold same_key. now rewrite Hc.
    + cbn [group_of]. rewrite same_key_refl.
      rewrite group_of_absent; [reflexivity|].
      eapply Forall_impl; [|exact Hall]. intros x Hx. exact (cmp_trans _ _ _ Hc Hx).
    + cbn [group_of]. unfold same_key at 1. rewrite Hc. now apply IH.
Qed.

Lemma group_of_add_other k k0 r gs :
  k0 <> k -> group_of cmp k0 (add_row cmp k r gs) = group_of cmp k0 gs.
Proof.
  intros Hne. induction gs as [|[k' rows] gs IH]; simpl.
  - destruct (same_key cmp k0 k) eqn:He; [|reflexivity].
    apply same_key_true in He. contradiction.
  - destruct (cmp k k') eqn:Hc; simpl.
    + apply cmp_eq in Hc. subst k'.
      destruct (same_key cmp k0 k) eqn:He; [|reflexivity].
      apply same_key_true in He. contradiction.
    + destruct (same_key cmp k0 k) eqn:He; [|reflexivity].
      apply same_key_true in He. contradiction.
    + now rewrite IH.
Qed.

Lemma group_of_member k rows gs :
  StronglySorted before (keys gs) ->
  In (k, rows) gs -> group_of cmp k gs = rows.
Proof.
  induction gs as [|[k' rows'] gs IH]; simpl; intros Hs Hin; [contradiction|].
  inversion Hs as [|? ? Hs' Hall]; subst.
  destruct Hin as [Heq|Hin].
  - inversion Heq; subst. now rewrite same_key_refl.
  - destruct (same_key cmp k k') eqn:He.
    + apply same_key_true in He. subst k'.
      rewrite Forall_forall in Hall.
      exfalso. apply (cmp_irrefl k). apply Hall.
      unfold keys. change k with (fst (k, rows)). now apply in_map.
    + now apply IH.
Qed.

Lemma rows_of_snoc key k df r :
  rows_of cmp key k (df ++ [r])
  = rows_of cmp key k df
    ++ (if has_category (same_key cmp) key k r then [r] else []).
Proof.
  unfold rows_of. rewrite filter_app. reflexivity.
Qed.

Lemma fold_add_group_of key df : forall gs seen,
  StronglySorted before (keys gs) ->
  (forall k, group_of cmp k gs = rows_of cmp key k seen) ->
  forall k, group_of cmp k (fold_left (add_keyed cmp key) df gs)
            = rows_of cmp key k (seen ++ df).
Proof.
  induction df as [|r df IH]; simpl; intros gs seen Hs Hinv k.
  - now rewrite app_nil_r.
  - replace (seen ++ r :: df) with ((seen ++ [r]) ++ df)
      by (rewrite <- app_assoc; reflexivity).
    apply IH.
    + unfold add_keyed. destruct (key r); [now apply add_row_sorted | exact Hs].
    + intros k1. rewrite rows_of_snoc. unfold add_keyed, has_category.
      destruct (key r) as [kr|] eqn:Hkr.
      * destruct (same_key cmp kr k1) eqn:He.
        -- apply same_key_true in He. subst k1.
           rewrite group_of_add_same by exact Hs. now rewrite Hinv.
        -- rewrite group_of_add_other.
           ++ rewrite app_nil_r. apply Hinv.
           ++ intros ->. now rewrite same_key_refl in He.
      * rewrite app_nil_r. apply Hinv.
Qed.

(** A group holds the rows of its key, in table order. *)
Lemma groupby_rows key df k rows :
  In (k, rows) (groupby cmp key df) -> rows = rows_of cmp key k df.
Proof.
  intros Hin. unfold groupby in *.
  rewrite <- (group_of_member k rows _ (groupby_sorted key df) Hin).
  unfold groupby. apply (fold_add_group_of key df [] []); [constructor|].
  intros k0. reflexivity.
Qed.

End GroupByFacts.

Lemma Zsum_cons (a : Z) (l : list Z) : Zsum (a :: l) = a + Zsum l.
Proof. reflexivity. Qed.

Section GroupCounts.

Context {K : Type} (cmp : K -> K -> comparison).

Let counted (g : K * DataFrame) : Z := series_count (map patient_id (snd g)).

Lemma add_row_counts k r gs :
  Zsum (map counted (add_row cmp k r gs))
  = Zsum (map counted gs) + series_count [patient_id r].
Proof.
  induction gs as [|[k' rows] gs IH]; cbn [add_row].
  - cbn [map]. rewrite !Zsum_cons. unfold counted. cbn [snd map Zsum fold_right]. lia.
  - destruct (cmp k k'); cbn [map]; rewrite !Zsum_cons.
    + unfold counted at 1 3. cbn [snd]. rewrite map_app, series_count_app.
      cbn [map]. lia.
    + unfold counted at 1. cbn [snd map]. lia.
    + rewrite IH. lia.
Qed.

Lemma fold_add_counts key df : forall gs,
  Zsum (map counted (fold_left (add_keyed cmp key) df gs))
  = Zsum (map counted gs)
    + series_count (map patient_id
                        (filter (fun r => match key r with
                                          | Some _ => true
                                          | None => false
                                          end) df)).
Proof.
  induction df as [|r df IH]; intros gs; cbn [fold_left filter].
  - unfold series_count. simpl. lia.
  - rewrite IH. unfold add_keyed. destruct (key r) as [k|].
    + rewrite add_row_counts. cbn [map].
      rewrite (series_count_cons (patient_id r) (map _ _)). lia.
    + reflexivity.
Qed.

(** The group sizes add up to the number of identified rows that have
    a key. *)
Lemma groupby_counts key df :
  Zsum (map counted (groupby cmp key df))
  = series_count (map patient_id
                      (filter (fun r => match key r with
                                        | Some _ => true
                                        | None => false
                                        end) df)).
Proof.
  unfold groupby. rewrite fold_add_counts. reflexivity.
Qed.

End GroupCounts.

(** Every key of a grouping is the key of some row. *)
Lemma groupby_keys_from_rows {K : Type} (cmp : K -> K -> comparison)
      (key : Encounter -> option K) (df : DataFrame) (k : K) :
  In k (keys (groupby cmp key df)) -> exists r, In r df /\ key r = Some k.
Proof.
  unfold groupby.
  assert (Hgen : forall gs,
             In k (keys (fold_left (add_keyed cmp key) df gs)) ->
             In k (keys gs) \/ exists r, In r df /\ key r = Some k).
  { induction df as [|r df IH]; cbn [fold_left]; intros gs Hin; [now left|].
    destruct (IH _ Hin) as [Hk|(x & Hx & Hkx)].
    - unfold add_keyed in Hk. destruct (key r) as [kr|] eqn:Hkr.
      + destruct (keys_add_row _ _ _ _ _ Hk) as [->|Hold].
        * right. exists r. split; [now left | exact Hkr].
        * now left.
      + now left.
    - right. exists x. split; [now right | exact Hkx]. }
  intros Hin. destruct (Hgen [] Hin) as [[]|H]. exact H.
Qed.

Lemma filter_all {A : Type} (p : A -> bool) (l : list A) :
  (forall a, In a l -> p a = true) -> filter p l = l.
Proof.
  induction l as [|a l IH]; intros Hall; [reflexivity|].
  simpl. rewrite (Hall a (or_introl eq_refl)). f_equal.
  apply IH. intros x Hx. apply Hall. now right.
Qed.

(** With every key and every identifier present, the group sizes add up
    to the number of rows. *)
Lemma groupby_counts_complete {K : Type} (cmp : K -> K -> comparison)
      (key : Encounter -> option K) (df : DataFrame) :
  (forall r, In r df -> key r <> None) ->
  (forall r, In r df -> patient_id r <> None) ->
  Zsum (map (fun g => series_count (map patient_id (snd g))) (groupby cmp key df))
  = total_patients df.
Proof.
  intros Hkey Hid. rewrite groupby_counts. rewrite filter_all.
  - now apply series_count_all_present.
  - intros r Hr. specialize (Hkey r Hr). now destruct (key r).
Qed.

(** ** The key orders *)

Lemma string_cmp_eq a b : string_cmp a b = Eq <-> a = b.
Proof.
  unfold string_cmp. destruct (String_as_OT.compare_spec a b) as [H|H|H].
  - tauto.
  - split; [discriminate|]. intros ->. exfalso.
    exact (StrictOrder_Irreflexive (R := String_as_OT.lt) b H).
  - split; [discriminate|]. intros ->. exfalso.
    exact (StrictOrder_Irreflexive (R := String_as_OT.lt) b H).
Qed.

Lemma string_cmp_trans a b c :
  string_cmp a b = Lt -> string_cmp b c = Lt -> string_cmp a c = Lt.
Proof.
  exact (StrictOrder_Transitive (R := String_as_OT.lt) a b c).
Qed.

Lemma string_cmp_gt a b : string_cmp a b = Gt -> string_cmp b a = Lt.
Proof.
  unfold string_cmp. destruct (String_as_OT.compare_spec a b) as [H|H|H];
    try discriminate. intros _. exact H.
Qed.

Lemma label_cmp_eq a b : label_cmp a b = Eq <-> a = b.
Proof.
  destruct a as [s|x], b as [t|y]; cbn [label_cmp].
  - rewrite string_cmp_eq. split; congruence.
  - split; discriminate.
  - split; discriminate.
  - rewrite <- Qceq_alt. split; congruence.
Qed.

Lemma label_cmp_trans a b c :
  label_cmp a b = Lt -> label_cmp b c = Lt -> label_cmp a c = Lt.
Proof.
  destruct a as [s|x], b as [t|y], c as [u|z]; cbn [label_cmp];
    try discriminate; try reflexivity.
  - apply string_cmp_trans.
  - rewrite <- !Qclt_alt. apply Qclt_trans.
Qed.

Lemma label_cmp_gt a b : label_cmp a b = Gt -> label_cmp b a = Lt.
Proof.
  destruct a as [s|x], b as [t|y]; cbn [label_cmp]; try discriminate; try reflexivity.
  - apply string_cmp_gt.
  - rewrite <- Qcgt_alt, <- Qclt_alt. tauto.
Qed.

Lemma period_cmp_lt p q : period_cmp p q = Lt <-> period_lt p q.
Proof.
  unfold period_cmp, period_lt.
  destruct (Z.compare_spec (p_year p) (p_year q)) as [H|H|H].
  - rewrite Z.compare_lt_iff. lia.
  - split; [tauto | reflexivity].
  - split; [discriminate | lia].
Qed.

Lemma period_cmp_eq p q : period_cmp p q = Eq <-> p = q.
Proof.
  unfold period_cmp. destruct p as [y m], q as [y' m']; simpl.
  destruct (Z.compare_spec y y') as [H|H|H].
  - rewrite Z.compare_eq_iff. split; [intros ->; now subst | now inversion 1].
  - split; [discriminate | inversion 1; lia].
  - split; [discriminate | inversion 1; lia].
Qed.

Lemma period_cmp_trans p q r :
  period_cmp p q = Lt -> period_cmp q r = Lt -> period_cmp p r = Lt.
Proof.
  rewrite !period_cmp_lt. unfold period_lt. lia.
Qed.

Lemma period_cmp_gt p q : period_cmp p q = Gt -> period_cmp q p = Lt.
Proof.
  rewrite period_cmp_lt. unfold period_cmp, period_lt.
  destruct (Z.compare_spec (p_year p) (p_year q)) as [H|H|H].
  - rewrite Z.compare_gt_iff. lia.
  - discriminate.
  - lia.
Qed.

(** ** Comparisons and medians *)

Lemma Qltb_lt (x y : Q) : Qltb x y = true <-> (x < y)%Q.
Proof.
  unfold Qltb. rewrite negb_true_iff, <- not_true_iff_false, Qle_bool_iff.
  split; [apply Qnot_le_lt | apply Qlt_not_le].
Qed.

Lemma Qltb_ge (x y : Q) : Qltb x y = false <-> (y <= x)%Q.
Proof.
  unfold Qltb. rewrite negb_false_iff. apply Qle_bool_iff.
Qed.

Lemma Qle_bool_gt (x y : Q) : Qle_bool x y = false <-> (y < x)%Q.
Proof.
  rewrite <- not_true_iff_false, Qle_bool_iff.
  split; [apply Qnot_le_lt | apply Qlt_not_le].
Qed.

Lemma series_median_finite_or_missing (col : list (option Q)) :
  series_median col = NaN \/ exists m, series_median col = Fin m.
Proof.
  unfold series_median.
  destruct (List.length (sort_values (dropna col))) as [|n]; [now left|].
  right. destruct (Nat.even (S n)); eexists; reflexivity.
Qed.

(** ** Sorting and the median *)

Lemma insert_sorted_perm (x : Q) (l : list Q) :
  Permutation (x :: l) (insert_sorted x l).
Proof.
  induction l as [|y l IH]; cbn [insert_sorted]; [reflexivity|].
  destruct (Qle_bool x y); [reflexivity|].
  rewrite perm_swap. now apply perm_skip.
Qed.

Lemma sort_values_perm (l : list Q) : Permutation l (sort_values l).
Proof.
  induction l as [|x l IH]; cbn [sort_values fold_right]; [reflexivity|].
  rewrite <- insert_sorted_perm. now apply perm_skip.
Qed.

Lemma insert_sorted_sorted (x : Q) (l : list Q) :
  StronglySorted Qle l -> StronglySorted Qle (insert_sorted x l).
Proof.
  induction 1 as [|y l Hs IH Hall]; cbn [insert_sorted].
  - repeat constructor.
  - destruct (Qle_bool x y) eqn:Hxy.
    + apply Qle_bool_iff in Hxy. constructor; [now constructor|].
      constructor; [exact Hxy|].
      eapply Forall_impl; [|exact Hall]. intros z Hz. now apply Qle_trans with y.
    + apply Qle_bool_gt in Hxy. constructor; [exact IH|].
      apply (Permutation_Forall (insert_sorted_perm x l)).
      constructor; [now apply Qlt_le_weak | exact Hall].
Qed.

Lemma sort_values_sorted (l : list Q) : StronglySorted Qle (sort_values l).
Proof.
  induction l as [|x l IH]; cbn [sort_values fold_right]; [constructor|].
  now apply insert_sorted_sorted.
Qed.

Lemma sort_values_length (l : list Q) : List.length (sort_values l) = List.length l.
Proof.
  symmetry. apply Permutation_length, sort_values_perm.
Qed.

Lemma count_above_perm (m : Q) (l l' : list Q) :
  Permutation l l' -> count_above m l = count_above m l'.
Proof.
  unfold count_above. induction 1 as [|x l l' _ IH|x y l|l l' l'' _ IH1 _ IH2].
  - reflexivity.
  - cbn [filter]. destruct (Qltb m x); cbn [List.length]; now rewrite IH.
  - cbn [filter]. destruct (Qltb m x), (Qltb m y); reflexivity.
  - now rewrite IH1.
Qed.

Lemma count_above_le_length (m : Q) (l : list Q) :
  (count_above m l <= List.length l)%nat.
Proof.
  unfold count_above. induction l as [|x l IH]; [reflexivity|].
  cbn [filter]. destruct (Qltb m x); cbn [List.length]; lia.
Qed.

Lemma count_above_mono (m m' : Q) (l : list Q) :
  (m <= m')%Q -> (count_above m' l <= count_above m l)%nat.
Proof.
  intros Hle. unfold count_above. induction l as [|x l IH]; [reflexivity|].
  cbn [filter]. destruct (Qltb m' x) eqn:H'.
  - apply Qltb_lt in H'. assert (H : Qltb m x = true) by (apply Qltb_lt; lra).
    rewrite H. cbn [List.length]. lia.
  - destruct (Qltb m x); cbn [List.length]; lia.
Qed.

Lemma sorted_nth_le (s : list Q) :
  StronglySorted Qle s ->
  forall i j, (i <= j < List.length s)%nat -> (nth i s 0 <= nth j s 0%Q)%Q.
Proof.
  induction 1 as [|x s Hs IH Hall]; intros i j Hij; [cbn in Hij; lia|].
  destruct j as [|j].
  - assert (i = 0%nat) by lia. subst. apply Qle_refl.
  - destruct i as [|i]; cbn [nth].
    + rewrite Forall_forall in Hall. apply Hall, nth_In. cbn in Hij. lia.
    + apply IH. cbn in Hij. lia.
Qed.

Lemma count_above_sorted_nth (s : list Q) :
  StronglySorted Qle s ->
  forall k, (k < List.length s)%nat ->
            (count_above (nth k s 0%Q) s <= List.length s - S k)%nat.
Proof.
  induction 1 as [|x s Hs IH Hall]; intros k Hk; [cbn in Hk; lia|].
  unfold count_above. cbn [filter].
  assert (Hx : Qltb (nth k (x :: s) 0%Q) x = false).
  { apply Qltb_ge.
    apply (sorted_nth_le (x :: s) (SSorted_cons x Hs Hall) 0 k). lia. }
  rewrite Hx. destruct k as [|k]; cbn [nth List.length].
  - pose proof (count_above_le_length x s) as Hc. unfold count_above in Hc. lia.
  - cbn in Hk. specialize (IH k ltac:(lia)). unfold count_above in IH. lia.
Qed.

Lemma Fin_inj (a b : Q) : Fin a = Fin b -> a = b.
Proof.
  now intros [= ->].
Qed.

Lemma nat_case_pos {A : Type} (n : nat) (a b : A) :
  n <> 0%nat -> match n with O => a | S _ => b end = b.
Proof.
  destruct n; congruence.
Qed.

(** At most half of the values lie strictly above the median. *)
Lemma above_median_at_most_half (col : list (option Q)) (m : Q) :
  series_median col = Fin m ->
  (2 * count_above m (dropna col) <= List.length (dropna col))%nat.
Proof.
  unfold series_median.
  rewrite (count_above_perm m _ _ (sort_values_perm (dropna col))).
  rewrite <- (sort_values_length (dropna col)).
  pose proof (sort_values_sorted (dropna col)) as Hs.
  set (s := sort_values (dropna col)) in *. clearbody s.
  set (n := List.length s) in *.
  destruct (Nat.eq_dec n 0) as [H0|Hpos]; [rewrite H0; discriminate|].
  rewrite (nat_case_pos n _ _ Hpos).
  destruct (Nat.even n) eqn:He; intros Hm; apply Fin_inj in Hm; subst m.
  - apply Nat.even_spec in He. destruct He as [h Hh].
    assert (Hdiv : (n / 2 = h)%nat) by (rewrite Hh, Nat.mul_comm; apply Nat.div_mul; lia).
    rewrite Hdiv in *.
    assert (Hab : (nth (h - 1) s 0%Q <= nth h s 0%Q)%Q) by (apply sorted_nth_le; [exact Hs | lia]).
    pose proof (count_above_sorted_nth s Hs (h - 1) ltac:(lia)) as Hc.
    pose proof (count_above_mono (nth (h - 1) s 0%Q)
                                 ((nth (h - 1) s 0 + nth h s 0) / 2)%Q s) as Hmono.
    assert (Hle : (nth (h - 1) s 0%Q <= (nth (h - 1) s 0%Q + nth h s 0%Q) / 2)%Q).
    { apply Qle_shift_div_l; lra. }
    specialize (Hmono Hle). fold n in Hc. lia.
  - assert (Ho : Nat.odd n = true) by (unfold Nat.odd; now rewrite He).
    apply Nat.odd_spec in Ho. destruct Ho as [h Hh].
    assert (Hdiv : (n / 2 = h)%nat).
    { rewrite Hh. rewrite Nat.mul_comm, Nat.div_add_l by lia. cbn. lia. }
    rewrite Hdiv in *.
    pose proof (count_above_sorted_nth s Hs h ltac:(lia)) as Hc. fold n in Hc. lia.
Qed.

Lemma filter_above_count (f : Encounter -> option Q) (m : Q) (df : DataFrame) :
  List.length (filter (fun r => float_gt (of_cell (f r)) (Fin m)) df)
  = count_above m (dropna (map f df)).
Proof.
  unfold count_above. induction df as [|r df IH]; [reflexivity|].
  cbn [filter map]. destruct (f r) as [x|]; cbn [of_cell float_gt dropna filter].
  - destruct (Qltb m x); cbn [List.length]; now rewrite IH.
  - exact IH.
Qed.

Lemma filter_both_length {A : Type} (p q : A -> bool) (l : list A) :
  (List.length (filter (fun a => p a && q a) l) <= List.length (filter p l))%nat.
Proof.
  induction l as [|a l IH]; [reflexivity|]. cbn [filter].
  destruct (p a), (q a); cbn [andb List.length]; lia.
Qed.

Lemma dropna_length_le {A : Type} (col : list (option A)) :
  (List.length (dropna col) <= List.length col)%nat.
Proof.
  induction col as [|[a|] col IH]; cbn [dropna List.length]; lia.
Qed.

(** X1. The high-cost, long-stay subset holds at most half of the rows. *)
Lemma expensive_long_stay_at_most_half (df : DataFrame) :
  (2 * List.length (expensive_long_stay df) <= List.length df)%nat.
Proof.
  unfold expensive_long_stay.
  pose proof (filter_both_length
                (fun r : Encounter =>
                   float_gt (of_cell (total_cost r)) (series_median (map total_cost df)))
                (fun r : Encounter =>
                   float_gt (of_cell (length_of_stay r))
                            (series_median (map length_of_stay df))) df) as Hboth.
  cbv beta in Hboth.
  destruct (series_median_finite_or_missing (map total_cost df)) as [Hm|[m Hm]].
  - rewrite Hm in *.
    assert (Hnone : filter (fun r : Encounter => float_gt (of_cell (total_cost r)) NaN) df = []).
    { clear. induction df as [|r df IH]; [reflexivity|]. cbn [filter].
      destruct (total_cost r); cbn [of_cell float_gt]; exact IH. }
    rewrite Hnone in Hboth. cbn [List.length] in Hboth. lia.
  - pose proof (above_median_at_most_half _ _ Hm) as Hhalf.
    rewrite Hm in *. rewrite filter_above_count in Hboth.
    pose proof (dropna_length_le (map total_cost df)) as Hlen.
    rewrite length_map in Hlen. lia.
Qed.

(** ** Age buckets *)

(** The four intervals of [pd.cut]: each is open on the left and closed
    on the right. *)
Lemma age_bucket_cases (a : Q) :
  (0 < a <= 35 /\ pd_cut age_bins age_labels (Some a) = Some Young)%Q
  \/ (35 < a <= 50 /\ pd_cut age_bins age_labels (Some a) = Some Middle)%Q
  \/ (50 < a <= 65 /\ pd_cut age_bins age_labels (Some a) = Some Senior)%Q
  \/ (65 < a <= 100 /\ pd_cut age_bins age_labels (Some a) = Some Elderly)%Q
  \/ ((a <= 0 \/ 100 < a) /\ pd_cut age_bins age_labels (Some a) = None)%Q.
Proof.
  unfold pd_cut, age_bins, age_labels. cbn [cut_from].
  destruct (Qltb 0 a) eqn:H0; [apply Qltb_lt in H0 | apply Qltb_ge in H0];
    cbn [andb].
  2: {
    assert (H35 : Qltb 35 a = false) by (apply Qltb_ge; lra).
    assert (H50 : Qltb 50 a = false) by (apply Qltb_ge; lra).
    assert (H65 : Qltb 65 a = false) by (apply Qltb_ge; lra).
    rewrite H35, H50, H65. cbn [andb]. do 4 right. split; [now left | reflexivity]. }
  destruct (Qle_bool a 35) eqn:H35; [apply Qle_bool_iff in H35 | apply Qle_bool_gt in H35].
  { left. split; [split; assumption | reflexivity]. }
  rewrite (proj2 (Qltb_lt 35 a) H35). cbn [andb].
  destruct (Qle_bool a 50) eqn:H50; [apply Qle_bool_iff in H50 | apply Qle_bool_gt in H50].
  { right; left. split; [split; assumption | reflexivity]. }
  rewrite (proj2 (Qltb_lt 50 a) H50). cbn [andb].
  destruct (Qle_bool a 65) eqn:H65; [apply Qle_bool_iff in H65 | apply Qle_bool_gt in H65].
  { do 2 right; left. split; [split; assumption | reflexivity]. }
  rewrite (proj2 (Qltb_lt 65 a) H65). cbn [andb].
  destruct (Qle_bool a 100) eqn:H100;
    [apply Qle_bool_iff in H100 | apply Qle_bool_gt in H100].
  { do 3 right; left. split; [split; assumption | reflexivity]. }
  do 4 right. split; [now right | reflexivity].
Qed.

Lemma AgeGroup_eqb_eq (a b : AgeGroup) : AgeGroup_eqb a b = true <-> a = b.
Proof.
  destruct a, b; simpl; split; congruence.
Qed.

Lemma filter_filter_implied {A : Type} (p q : A -> bool) (l : list A) :
  (forall a, p a = true -> q a = true) -> filter p (filter q l) = filter p l.
Proof.
  intros Himp. induction l as [|a l IH]; [reflexivity|]. cbn [filter].
  destruct (q a) eqn:Hq; cbn [filter].
  - now rewrite IH.
  - destruct (p a) eqn:Hp; [|exact IH].
    rewrite (Himp a Hp) in Hq. discriminate.
Qed.

Lemma has_bucket_bucketed (g : AgeGroup) (r : Encounter) :
  has_category AgeGroup_eqb age_group g r = true -> bucketed r = true.
Proof.
  unfold has_category, bucketed. now destruct (age_group r).
Qed.

(** The rows of an age group are rows that fell into its bucket. *)
Lemma age_groups_rows (observed : bool) (df : DataFrame) (g : AgeGroup) (rows : DataFrame) :
  In (g, rows) (age_groups observed df) ->
  rows = filter (has_category AgeGroup_eqb age_group g) df.
Proof.
  unfold age_groups, groupby_categorical. intros Hin.
  assert (Hall : In (g, rows)
                    (map (fun c => (c, filter (has_category AgeGroup_eqb age_group c) df))
                         age_labels)).
  { destruct observed; [apply filter_In in Hin; tauto | exact Hin]. }
  apply in_map_iff in Hall. destruct Hall as (c & Heq & _). now inversion Heq.
Qed.

Lemma unbucketed_in_no_group (observed : bool) (df : DataFrame) (r : Encounter) :
  age_group r = None ->
  forall g rows, In (g, rows) (age_groups observed df) -> ~ In r rows.
Proof.
  intros Hnone g rows Hin Hr.
  rewrite (age_groups_rows _ _ _ _ Hin) in Hr. apply filter_In in Hr.
  destruct Hr as [_ Hr]. apply has_bucket_bucketed in Hr.
  unfold bucketed in Hr. rewrite Hnone in Hr. discriminate.
Qed.

(** The table by age group is computed from the bucketed rows alone. *)
Lemma age_analysis_of_bucketed (observed : bool) (df : DataFrame) :
  age_analysis observed df = age_analysis observed (filter bucketed df).
Proof.
  unfold age_analysis, age_groups, groupby_categorical.
  assert (Hsame : map (fun c => (c, filter (has_category AgeGroup_eqb age_group c) df))
                      age_labels
                  = map (fun c => (c, filter (has_category AgeGroup_eqb age_group c)
                                             (filter bucketed df)))
                        age_labels).
  { apply map_ext. intros c. f_equal. symmetry.
    apply filter_filter_implied. intros r. apply has_bucket_bucketed. }
  now rewrite Hsame.
Qed.

Ltac bucket_cases Hc :=
  destruct Hc as [[? Hc]|[[? Hc]|[[? Hc]|[[? Hc]|[? Hc]]]]];
  rewrite ?Hc in *;
  solve [reflexivity | discriminate | lra | exfalso; lra].

(** C2. The age buckets are the intervals (0,35], (35,50], (50,65] and
    (65,100] with their four labels: a row of age 35 is "Young (18-35)",
    a row of age 36 is "Middle (36-50)", and a row whose age lies outside
    [0,100] (such as 101) has no bucket, is in no group of the grouping
    by age, and the by_age_group table is the one computed without such
    rows. *)
Theorem age_buckets_and_exclusion (observed : bool) (df : DataFrame)
        (r : Encounter) (a : Q) (Hin : In r df) (Hage : age r = Some a) :
  ((a == 35)%Q -> option_map age_label (age_group r) = Some "Young (18-35)"%string)
  /\ ((a == 36)%Q -> option_map age_label (age_group r) = Some "Middle (36-50)"%string)
  /\ ((0 < a <= 35)%Q <-> age_group r = Some Young)
  /\ ((35 < a <= 50)%Q <-> age_group r = Some Middle)
  /\ ((50 < a <= 65)%Q <-> age_group r = Some Senior)
  /\ ((65 < a <= 100)%Q <-> age_group r = Some Elderly)
  /\ ((a < 0 \/ 100 < a)%Q ->
      age_group r = None
      /\ (forall g rows, In (g, rows) (age_groups observed df) -> ~ In r rows)
      /\ In r df /\ ~ In r (filter bucketed df))
  /\ Dashboard.by_age_group (dashboard_data observed df)
     = age_analysis observed (filter bucketed df).
Proof.
  assert (Hg : age_group r = pd_cut age_bins age_labels (Some a))
    by (unfold age_group; now rewrite Hage).
  pose proof (age_bucket_cases a) as Hc.
  assert (Hout : (a < 0 \/ 100 < a)%Q -> age_group r = None)
    by (rewrite Hg; intros H; bucket_cases Hc).
  refine (conj _ (conj _ (conj _ (conj _ (conj _ (conj _ (conj _ _))))))).
  - rewrite Hg. intros H. bucket_cases Hc.
  - rewrite Hg. intros H. bucket_cases Hc.
  - rewrite Hg. split; intros H; bucket_cases Hc.
  - rewrite Hg. split; intros H; bucket_cases Hc.
  - rewrite Hg. split; intros H; bucket_cases Hc.
  - rewrite Hg. split; intros H; bucket_cases Hc.
  - intros H. specialize (Hout H). repeat split.
    + exact Hout.
    + now apply unbucketed_in_no_group.
    + exact Hin.
    + intros Hf. apply filter_In in Hf. destruct Hf as [_ Hf].
      unfold bucketed in Hf. rewrite Hout in Hf. discriminate.
  - apply age_analysis_of_bucketed.
Qed.

Lemma age_buckets_and_exclusion_witness :
  option_map age_label (age_group (nth 0 four_ages anonymous)) = Some "Young (18-35)"%string
  /\ option_map age_label (age_group (nth 1 four_ages anonymous)) = Some "Middle (36-50)"%string
  /\ age_group (nth 2 four_ages anonymous) = None
  /\ ~ In (nth 2 four_ages anonymous) (filter bucketed four_ages).
Proof.
  split; [|split; [|split]].
  - apply (age_buckets_and_exclusion false four_ages (nth 0 four_ages anonymous) 35).
    + simpl; tauto.
    + reflexivity.
    + reflexivity.
  - apply (age_buckets_and_exclusion false four_ages (nth 1 four_ages anonymous) 36).
    + simpl; tauto.
    + reflexivity.
    + reflexivity.
  - apply (age_buckets_and_exclusion false four_ages (nth 2 four_ages anonymous) 101).
    + simpl; tauto.
    + reflexivity.
    + right. reflexivity.
  - apply (age_buckets_and_exclusion false four_ages (nth 2 four_ages anonymous) 101).
    + simpl; tauto.
    + reflexivity.
    + right. reflexivity.
Defined.

(** C10. A row of age exactly 0, although 0 lies in [0,100], has no
    bucket, because the first interval (0,35] is open on the left: it is
    in no group of the grouping by age and the by_age_group table is the
    one computed without it. *)
Theorem age_zero_has_no_bucket (observed : bool) (df : DataFrame)
        (r : Encounter) (a : Q) (Hin : In r df) (Hage : age r = Some a)
        (Hzero : (a == 0)%Q) :
  (0 <= a <= 100)%Q
  /\ age_group r = None
  /\ (forall x : Q, pd_cut age_bins age_labels (Some x) = Some Young -> (0 < x)%Q)
  /\ (forall g rows, In (g, rows) (age_groups observed df) -> ~ In r rows)
  /\ ~ In r (filter bucketed df)
  /\ Dashboard.by_age_group (dashboard_data observed df)
     = age_analysis observed (filter bucketed df).
Proof.
  assert (Hnone : age_group r = None).
  { unfold age_group. rewrite Hage. pose proof (age_bucket_cases a) as Hc.
    bucket_cases Hc. }
  refine (conj _ (conj Hnone (conj _ (conj _ (conj _ _))))).
  - lra.
  - intros x Hx. pose proof (age_bucket_cases x) as Hc. bucket_cases Hc.
  - now apply unbucketed_in_no_group.
  - intros Hf. apply filter_In in Hf. destruct Hf as [_ Hf].
    unfold bucketed in Hf. rewrite Hnone in Hf. discriminate.
  - apply age_analysis_of_bucketed.
Qed.

Lemma age_zero_has_no_bucket_witness :
  age_group (nth 3 four_ages anonymous) = None
  /\ ~ In (nth 3 four_ages anonymous) (filter bucketed four_ages).
Proof.
  split.
  - apply (age_zero_has_no_bucket true four_ages (nth 3 four_ages anonymous) 0).
    + simpl; tauto.
    + reflexivity.
    + reflexivity.
  - apply (age_zero_has_no_bucket true four_ages (nth 3 four_ages anonymous) 0).
    + simpl; tauto.
    + reflexivity.
    + reflexivity.
Defined.

(** ** Cleaning *)

Lemma mapM_readable {A : Type} (cell_of : A -> date_text) (l : list A) :
  (forall x, In x l -> readable (cell_of x)) ->
  exists ts, mapM (fun x => to_datetime (cell_of x)) l = Ok ts
             /\ List.length ts = List.length l.
Proof.
  induction l as [|x l IH]; intros Hall.
  - exists []. split; reflexivity.
  - destruct IH as (ts & Hts & Hlen); [intros y Hy; apply Hall; now right|].
    specialize (Hall x (or_introl eq_refl)). cbn [mapM].
    destruct (cell_of x) as [t| |]; cbn [to_datetime bind].
    + rewrite Hts. cbn [bind]. eexists. split; [reflexivity|]. simpl. now rewrite Hlen.
    + contradiction.
    + rewrite Hts. cbn [bind]. eexists. split; [reflexivity|]. simpl. now rewrite Hlen.
Qed.

Lemma assign_dates_keeps {B : Type} (f : forall D, Row D -> B)
      (Hf : forall r a d, f _ (with_dates r a d) = f _ r) (raw : RawFrame) :
  forall adm dis,
    List.length adm = List.length raw -> List.length dis = List.length raw ->
    map (f _) (assign_dates raw adm dis) = map (f _) raw.
Proof.
  induction raw as [|r raw IH]; intros adm dis Ha Hd.
  - now destruct adm, dis.
  - destruct adm as [|a adm]; [discriminate|]. destruct dis as [|d dis]; [discriminate|].
    cbn [assign_dates map]. rewrite Hf. f_equal.
    apply IH; [now inversion Ha | now inversion Hd].
Qed.

Lemma mapM_date_fault {A : Type} (cell_of : A -> date_text) (l : list A) (f : fault) :
  mapM (fun x => to_datetime (cell_of x)) l = Fault f ->
  exists x text, In x l /\ cell_of x = Garbled text /\ f = UnparseableDate text.
Proof.
  induction l as [|x l IH]; cbn [mapM]; [discriminate|].
  destruct (cell_of x) as [t|text|] eqn:Hc; cbn [to_datetime bind].
  - destruct (mapM (fun x0 => to_datetime (cell_of x0)) l) as [ts|f'] eqn:Hl;
      cbn [bind]; [discriminate|].
    intros [= <-]. destruct (IH eq_refl) as (y & text & Hy & Hg & Hf).
    exists y, text. repeat split; [now right | exact Hg | exact Hf].
  - intros [= <-]. exists x, text. repeat split; [now left | exact Hc].
  - destruct (mapM (fun x0 => to_datetime (cell_of x0)) l) as [ts|f'] eqn:Hl;
      cbn [bind]; [discriminate|].
    intros [= <-]. destruct (IH eq_refl) as (y & text & Hy & Hg & Hf).
    exists y, text. repeat split; [now right | exact Hg | exact Hf].
Qed.

(** The cleaning step dies of an unreadable date and of nothing else. *)
Lemma data_cleaning_fault (raw : RawFrame) (f : fault) :
  data_cleaning raw = Fault f ->
  exists r text,
    In r raw /\ f = UnparseableDate text
    /\ (admission_date r = Garbled text \/ discharge_date r = Garbled text).
Proof.
  unfold data_cleaning.
  destruct (mapM (fun r => to_datetime (admission_date r)) raw) as [adm|fa] eqn:Ha;
    cbn [bind].
  - destruct (mapM (fun r => to_datetime (discharge_date r)) raw) as [dis|fd] eqn:Hd;
      cbn [bind]; [discriminate|].
    intros [= <-]. destruct (mapM_date_fault _ _ _ Hd) as (r & text & Hr & Hg & Hf).
    exists r, text. auto.
  - intros [= <-]. destruct (mapM_date_fault _ _ _ Ha) as (r & text & Hr & Hg & Hf).
    exists r, text. auto.
Qed.

(** C8. A yes/no cell that holds anything but exactly Yes or No is
    encoded as the missing value, for the outcome and for the readmission
    column alike, and the encoding raises nothing: on a table whose dates
    can be read the cleaning step returns the table, its binary columns
    being the encodings of the loaded cells. *)
Theorem unmapped_value_becomes_missing (raw : RawFrame) (r : Row date_text)
        (Hin : In r raw)
        (Hdates : forall x, In x raw ->
                            readable (admission_date x) /\ readable (discharge_date x))
        (Hodd : ~ yes_or_no (treatment_success r) \/ ~ yes_or_no (readmitted r)) :
  (~ yes_or_no (treatment_success r) -> success_binary r = None)
  /\ (~ yes_or_no (readmitted r) -> readmitted_binary r = None)
  /\ exists df : DataFrame,
      data_cleaning raw = Ok df
      /\ List.length df = List.length raw
      /\ map success_binary df = map success_binary raw
      /\ map readmitted_binary df = map readmitted_binary raw.
Proof.
  assert (Hmap : forall c, ~ yes_or_no c -> map_yes_no c = None).
  { intros c Hc. unfold yes_or_no in Hc. destruct c as [s| | |]; try reflexivity.
    simpl. destruct (String.eqb_spec s "Yes") as [->|_]; [tauto|].
    destruct (String.eqb_spec s "No") as [->|_]; [tauto | reflexivity]. }
  split; [apply Hmap | split; [apply Hmap|]].
  destruct (mapM_readable admission_date raw) as (adm & Hadm & Hla);
    [intros x Hx; now apply Hdates|].
  destruct (mapM_readable discharge_date raw) as (dis & Hdis & Hld);
    [intros x Hx; now apply Hdates|].
  exists (assign_dates raw adm dis). unfold data_cleaning.
  rewrite Hadm. cbn [bind]. rewrite Hdis. cbn [bind].
  split; [reflexivity|]. split; [|split].
  - rewrite <- (length_map (fun x : Encounter => success_binary x)).
    rewrite (assign_dates_keeps (@success_binary)); [apply length_map | reflexivity | easy | easy].
  - apply (assign_dates_keeps (@success_binary)); [reflexivity | easy | easy].
  - apply (assign_dates_keeps (@readmitted_binary)); [reflexivity | easy | easy].
Qed.

Lemma unmapped_value_becomes_missing_witness :
  success_binary (nth 0 raw_with_odd_values (raw_encounter "" Blank Missing Missing)) = None
  /\ readmitted_binary (nth 1 raw_with_odd_values (raw_encounter "" Blank Missing Missing)) = None
  /\ exists df : DataFrame,
      data_cleaning raw_with_odd_values = Ok df
      /\ List.length df = 2%nat
      /\ map success_binary df = [None; Some 1]
      /\ map readmitted_binary df = [Some 0; None].
Proof.
  assert (Hdates : forall x, In x raw_with_odd_values ->
                             readable (admission_date x) /\ readable (discharge_date x)).
  { intros x [<-|[<-|[]]]; simpl; tauto. }
  split; [|split].
  - apply (unmapped_value_becomes_missing raw_with_odd_values
             (nth 0 raw_with_odd_values (raw_encounter "" Blank Missing Missing)));
      [simpl; tauto | exact Hdates | | ].
    + left. intros [H|H]; discriminate H.
    + intros [H|H]; discriminate H.
  - apply (unmapped_value_becomes_missing raw_with_odd_values
             (nth 1 raw_with_odd_values (raw_encounter "" Blank Missing Missing)));
      [simpl; tauto | exact Hdates | | ].
    + right. intros [H|H]; discriminate H.
    + intros [H|H]; discriminate H.
  - apply (unmapped_value_becomes_missing raw_with_odd_values
             (nth 0 raw_with_odd_values (raw_encounter "" Blank Missing Missing)));
      [simpl; tauto | exact Hdates | ].
    left. intros [H|H]; discriminate H.
Defined.

(** ** Overall rates *)

Lemma dropna_encoded_length {D : Type} (f : Row D -> cell) (df : list (Row D)) :
  (forall r, In r df -> yes_or_no (f r)) ->
  List.length (dropna (map (fun r => option_map inject_Z (map_yes_no (f r))) df))
  = List.length df.
Proof.
  induction df as [|r df IH]; intros Hall; [reflexivity|].
  cbn [map]. destruct (Hall r (or_introl eq_refl)) as [-> | ->]; cbn [map_yes_no];
    simpl; f_equal; apply IH; intros x Hx; apply Hall; now right.
Qed.

(** Where no cell is missing, the sum over the row count is the mean. *)
Lemma rate_is_mean (col : list (option Q)) (n : nat) :
  List.length (dropna col) = n -> n <> 0%nat ->
  fmul (np_truediv (series_sum col) (Z.of_nat n)) 100 = fmul (series_mean col) 100.
Proof.
  intros Hlen Hn. unfold np_truediv, series_mean, series_sum.
  destruct (Z.eqb_spec (Z.of_nat n) 0) as [H0|_]; [lia|].
  destruct (dropna col) as [|v vals] eqn:Hd.
  - simpl in Hlen. congruence.
  - now rewrite Hlen.
Qed.

(** C3, as amended.  On a table that is not empty and whose outcome
    cells all hold exactly Yes or No, one hundred times the mean of
    success_binary is the overall success rate, so the two agree after
    rounding to one digit, both in the summary of the results file and in
    the printed report. *)
Theorem mean_of_success_binary_is_success_rate (df : DataFrame)
        (Hrows : df <> [])
        (Hcells : forall r, In r df -> yes_or_no (treatment_success r)) :
  fmul (series_mean (binary_column success_binary df)) 100 = success_rate df
  /\ fround 1 (fmul (series_mean (binary_column success_binary df)) 100)
     = Summary.success_rate (summary df)
  /\ fround 1 (fmul (series_mean (binary_column success_binary df)) 100)
     = printed_success_rate df
  /\ exists q, success_rate df = Fin q.
Proof.
  assert (Hrate : fmul (series_mean (binary_column success_binary df)) 100
                  = success_rate df).
  { unfold success_rate, total_patients. symmetry. apply rate_is_mean.
    - apply (dropna_encoded_length treatment_success df Hcells).
    - destruct df; [contradiction | discriminate]. }
  split; [exact Hrate|]. unfold printed_success_rate, format_1f.
  cbn [summary Summary.success_rate]. rewrite Hrate.
  split; [reflexivity | split; [reflexivity|]].
  unfold success_rate, np_truediv, total_patients.
  destruct (Z.eqb_spec (Z.of_nat (List.length df)) 0) as [H0|_].
  - destruct df; [contradiction | discriminate].
  - eexists. reflexivity.
Qed.

Lemma mean_of_success_binary_is_success_rate_witness :
  fround 1 (fmul (series_mean (binary_column success_binary three_encounters)) 100)
  = Summary.success_rate (summary three_encounters).
Proof.
  apply (mean_of_success_binary_is_success_rate three_encounters).
  - discriminate.
  - intros r [<-|[<-|[<-|[]]]]; simpl; unfold yes_or_no; tauto.
Defined.

(** C3, as stated, fails: of two encounters, one a success and one whose
    outcome is neither Yes nor No, the mean of success_binary is 1, that
    is 100 percent, while the reported success rate is 50 percent. *)
Lemma mean_of_success_binary_counterexample :
  yes_and_maybe <> []
  /\ map success_binary yes_and_maybe = [Some 1; None]
  /\ fround 1 (fmul (series_mean (binary_column success_binary yes_and_maybe)) 100)
     = Fin 100
  /\ Summary.success_rate (summary yes_and_maybe) = Fin 50
  /\ printed_success_rate yes_and_maybe = Fin 50
  /\ fround 1 (fmul (series_mean (binary_column success_binary yes_and_maybe)) 100)
     <> Summary.success_rate (summary yes_and_maybe).
Proof.
  repeat split; try reflexivity; discriminate.
Qed.

(** ** Rounding *)

Lemma round_half_even_comp (p q : Q) :
  (p == q)%Q -> round_half_even p = round_half_even q.
Proof.
  intros H. unfold round_half_even. rewrite (Qfloor_comp _ _ H).
  assert (Hd : (p - inject_Z (Qfloor q) == q - inject_Z (Qfloor q))%Q)
    by (rewrite H; reflexivity).
  now rewrite (Qcompare_comp _ _ Hd (1 # 2)%Q (1 # 2)%Q (Qeq_refl _)).
Qed.

Lemma round_half_even_Z (n : Z) : round_half_even (inject_Z n) = n.
Proof.
  unfold round_half_even. rewrite Qfloor_Z.
  assert (Hd : (inject_Z n - inject_Z n == 0)%Q) by ring.
  now rewrite (Qcompare_comp _ _ Hd (1 # 2)%Q (1 # 2)%Q (Qeq_refl _)).
Qed.

Lemma round_to_comp (d : nat) (p q : Q) : (p == q)%Q -> round_to d p = round_to d q.
Proof.
  intros H. unfold round_to. apply Qred_complete.
  rewrite (round_half_even_comp (p * inject_Z (pow10 d)) (q * inject_Z (pow10 d)));
    [reflexivity | now rewrite H].
Qed.

(** Rounding a fraction to two digits, scaling it by one hundred and
    rounding to one digit gives a whole number: the percentage rounded
    to no digit at all. *)
Lemma round_twice_is_whole (m : Q) :
  round_to 1 (round_to 2 m * 100) = round_to 0 (m * 100).
Proof.
  unfold round_to at 1 3. apply Qred_complete.
  change (pow10 1) with 10. change (pow10 0) with 1.
  set (z := round_half_even (m * inject_Z (pow10 2))).
  assert (H2 : (round_to 2 m == inject_Z z / inject_Z 100)%Q)
    by (unfold round_to; apply Qred_correct).
  assert (Hl : (round_to 2 m * 100 * inject_Z 10 == inject_Z (10 * z))%Q).
  { rewrite H2, inject_Z_mult. field. }
  rewrite (round_half_even_comp _ _ Hl), round_half_even_Z.
  assert (Hr : (m * 100 * inject_Z 1 == m * inject_Z (pow10 2))%Q).
  { change (inject_Z (pow10 2)) with 100%Q. change (inject_Z 1) with 1%Q. ring. }
  rewrite (round_half_even_comp _ _ Hr). fold z.
  rewrite inject_Z_mult. field.
Qed.

Lemma to_percent_whole (x : float64) :
  to_percent (fround 2 x) = fround 0 (fmul x 100).
Proof.
  destruct x; try reflexivity. unfold to_percent. cbn [fround fmul].
  f_equal. apply round_twice_is_whole.
Qed.

(** ** Grouped percentages *)

Lemma groupby_label_rows (key : Encounter -> option label) (df : DataFrame)
      (k : label) (rows : DataFrame) :
  In (k, rows) (groupby label_cmp key df) -> rows = rows_of label_cmp key k df.
Proof.
  apply groupby_rows.
  - exact label_cmp_eq.
  - exact label_cmp_trans.
  - exact label_cmp_gt.
Qed.

(** C4.  The tables by condition and by treatment type round the mean of
    the binary field to two digits before it is turned into a
    percentage, so the digit that the last rounding is meant to keep is
    lost.  For a condition with one success among three encounters the
    mean is one third and the table holds 33.0, where the percentage
    rounded to one digit is 33.3: the value that the summary reports as
    the overall rate of the same three rows. *)
Theorem grouped_percentage_loses_its_digit :
  groupby label_cmp condition three_encounters = [(Text "Flu", three_encounters)]
  /\ map success_binary three_encounters = [Some 1; Some 0; Some 0]
  /\ fround 2 (series_mean (binary_column success_binary three_encounters))
     = Fin (33 # 100)
  /\ map ByCondition.Success_Rate (condition_stats three_encounters) = [Fin 33]
  /\ map ByTreatment.Success_Rate (treatment_stats three_encounters) = [Fin 33]
  /\ fround 1 (fmul (series_mean (binary_column success_binary three_encounters)) 100)
     = Fin (333 # 10)
  /\ Summary.success_rate (summary three_encounters) = Fin (333 # 10)
  /\ map ByCondition.Success_Rate (condition_stats three_encounters)
     <> [fround 1 (fmul (series_mean (binary_column success_binary three_encounters)) 100)].
Proof.
  repeat split; try reflexivity; discriminate.
Qed.

(** ** Patient counts *)

Lemma Zsum_nonempty_groups {L : Type} (gs : list (L * DataFrame)) :
  Zsum (map (fun g => series_count (map patient_id (snd g))) (filter nonempty_group gs))
  = Zsum (map (fun g => series_count (map patient_id (snd g))) gs).
Proof.
  induction gs as [|[c rows] gs IH]; [reflexivity|]. cbn [filter].
  unfold nonempty_group at 1. cbn [snd]. destruct rows as [|r rows].
  - cbn [map]. rewrite Zsum_cons, IH. reflexivity.
  - cbn [map]. rewrite !Zsum_cons, IH. reflexivity.
Qed.

(** The four age groups hold every bucketed row once. *)
Lemma age_groups_counts (observed : bool) (df : DataFrame) :
  Zsum (map (fun g => series_count (map patient_id (snd g))) (age_groups observed df))
  = series_count (map patient_id (filter bucketed df)).
Proof.
  unfold age_groups, groupby_categorical.
  assert (Hall : Zsum (map (fun g : AgeGroup * DataFrame =>
                              series_count (map patient_id (snd g)))
                           (map (fun c => (c, filter (has_category AgeGroup_eqb age_group c) df))
                                age_labels))
                 = series_count (map patient_id (filter bucketed df))).
  { unfold age_labels. cbn [map snd]. rewrite !Zsum_cons. cbn [Zsum fold_right].
    induction df as [|r df IH]; [reflexivity|]. cbn [filter].
    assert (Hcat : forall c, has_category AgeGroup_eqb age_group c r
                             = match age_group r with
                               | Some c' => AgeGroup_eqb c' c
                               | None => false
                               end) by reflexivity.
    rewrite !Hcat. unfold bucketed at 1.
    destruct (age_group r) as [[| | |]|]; cbn [AgeGroup_eqb map];
      rewrite ?(series_count_cons (patient_id r) (map _ _)); lia. }
  destruct observed; [rewrite Zsum_nonempty_groups|]; exact Hall.
Qed.

Lemma Patient_Count_by_condition (df : DataFrame) :
  map ByCondition.Patient_Count (condition_stats df)
  = map (fun g => series_count (map patient_id (snd g))) (groupby label_cmp condition df).
Proof.
  unfold condition_stats. rewrite map_map. reflexivity.
Qed.

Lemma Patient_Count_by_treatment (df : DataFrame) :
  map ByTreatment.Patient_Count (treatment_stats df)
  = map (fun g => series_count (map patient_id (snd g)))
        (groupby label_cmp treatment_type df).
Proof.
  unfold treatment_stats. rewrite map_map. reflexivity.
Qed.

Lemma Patient_Count_by_age (observed : bool) (df : DataFrame) :
  map ByAgeGroup.Patient_Count (age_analysis observed df)
  = map (fun g => series_count (map patient_id (snd g))) (age_groups observed df).
Proof.
  unfold age_analysis. rewrite map_map. reflexivity.
Qed.

Lemma Patient_Count_by_insurance (df : DataFrame) :
  map ByInsurance.Patient_Count (insurance_stats df)
  = map (fun g => series_count (map patient_id (snd g)))
        (groupby label_cmp insurance_type df).
Proof.
  unfold insurance_stats. rewrite map_map. reflexivity.
Qed.

Lemma Admissions_by_month (df : DataFrame) :
  map Monthly.Admissions (monthly_trends df)
  = map (fun g => series_count (map patient_id (snd g)))
        (groupby period_cmp admission_month df).
Proof.
  unfold monthly_trends. rewrite map_map. reflexivity.
Qed.

(** C5, as amended.  The number of patients is the number of rows, and
    on a table in which every patient identifier is present, the patient
    counts of a grouped table add up to it as soon as every row has a
    key for that grouping; this holds for the tables by condition, by
    treatment type, by age group, by insurance type and by month. *)
Theorem patient_counts_sum_to_total (observed : bool) (df : DataFrame)
        (Hrows : df <> [])
        (Hid : forall r, In r df -> patient_id r <> None) :
  total_patients df = Z.of_nat (List.length df)
  /\ Summary.total_patients (summary df) = total_patients df
  /\ ((forall r, In r df -> condition r <> None) ->
      Zsum (map ByCondition.Patient_Count (condition_stats df)) = total_patients df)
  /\ ((forall r, In r df -> treatment_type r <> None) ->
      Zsum (map ByTreatment.Patient_Count (treatment_stats df)) = total_patients df)
  /\ ((forall r, In r df -> age_group r <> None) ->
      Zsum (map ByAgeGroup.Patient_Count (age_analysis observed df)) = total_patients df)
  /\ ((forall r, In r df -> insurance_type r <> None) ->
      Zsum (map ByInsurance.Patient_Count (insurance_stats df)) = total_patients df)
  /\ ((forall r, In r df -> admission_month r <> None) ->
      Zsum (map Monthly.Admissions (monthly_trends df)) = total_patients df).
Proof.
  split; [reflexivity|]. split; [reflexivity|].
  refine (conj _ (conj _ (conj _ (conj _ _)))).
  - intros Hkey. rewrite Patient_Count_by_condition.
    now apply groupby_counts_complete.
  - intros Hkey. rewrite Patient_Count_by_treatment.
    now apply groupby_counts_complete.
  - intros Hkey. rewrite Patient_Count_by_age, age_groups_counts, filter_all.
    + now apply series_count_all_present.
    + intros r Hr. specialize (Hkey r Hr). unfold bucketed. now destruct (age_group r).
  - intros Hkey. rewrite Patient_Count_by_insurance.
    now apply groupby_counts_complete.
  - intros Hkey. rewrite Admissions_by_month.
    now apply groupby_counts_complete.
Qed.

Lemma patient_counts_sum_to_total_witness :
  Zsum (map ByCondition.Patient_Count (condition_stats out_of_order)) = 4
  /\ Zsum (map ByAgeGroup.Patient_Count (age_analysis false out_of_order)) = 4
  /\ Zsum (map Monthly.Admissions (monthly_trends out_of_order)) = 4.
Proof.
  assert (Hid : forall r, In r out_of_order -> patient_id r <> None)
    by (intros r [<-|[<-|[<-|[<-|[]]]]]; discriminate).
  assert (Hrows : out_of_order <> []) by discriminate.
  split; [|split].
  - apply (patient_counts_sum_to_total false out_of_order Hrows Hid).
    intros r [<-|[<-|[<-|[<-|[]]]]]; discriminate.
  - apply (patient_counts_sum_to_total false out_of_order Hrows Hid).
    intros r [<-|[<-|[<-|[<-|[]]]]]; discriminate.
  - apply (patient_counts_sum_to_total false out_of_order Hrows Hid).
    intros r [<-|[<-|[<-|[<-|[]]]]]; discriminate.
Defined.

(** C5, as stated, fails: a single row with every grouping key present
    and an empty identifier cell is counted by no group, so the patient
    counts add up to 0 while the number of patients is 1. *)
Lemma patient_counts_counterexample :
  [anonymous] <> []
  /\ condition anonymous <> None
  /\ treatment_type anonymous <> None
  /\ age_group anonymous <> None
  /\ insurance_type anonymous <> None
  /\ admission_month anonymous <> None
  /\ total_patients [anonymous] = 1
  /\ map ByCondition.Patient_Count (condition_stats [anonymous]) = [0]
  /\ Zsum (map ByCondition.Patient_Count (condition_stats [anonymous])) = 0
  /\ Zsum (map ByTreatment.Patient_Count (treatment_stats [anonymous])) = 0
  /\ Zsum (map ByAgeGroup.Patient_Count (age_analysis false [anonymous])) = 0
  /\ Zsum (map ByCondition.Patient_Count (condition_stats [anonymous]))
     <> total_patients [anonymous].
Proof.
  repeat split; try reflexivity; discriminate.
Qed.

(** ** Monthly trends *)

Lemma sorted_consecutive {A : Type} (R : A -> A -> Prop) (l : list A) :
  StronglySorted R l ->
  forall i a b, nth_error l i = Some a -> nth_error l (S i) = Some b -> R a b.
Proof.
  induction 1 as [|x l Hs IH Hall]; intros i a b Ha Hb.
  - destruct i; discriminate.
  - destruct i as [|i].
    + cbn in Ha, Hb. inversion Ha; subst.
      rewrite Forall_forall in Hall. apply Hall.
      destruct l as [|y l]; [discriminate|]. inversion Hb; subst. now left.
    + cbn in Ha, Hb. exact (IH i a b Ha Hb).
Qed.

Lemma monthly_index (df : DataFrame) :
  map Monthly.admission_month (monthly_trends df)
  = keys (groupby period_cmp admission_month df).
Proof.
  unfold monthly_trends, keys. rewrite map_map. reflexivity.
Qed.

(** The index of the monthly table is strictly increasing. *)
Lemma monthly_trends_sorted (df : DataFrame) :
  StronglySorted period_lt (map Monthly.admission_month (monthly_trends df)).
Proof.
  rewrite monthly_index.
  pose proof (groupby_sorted period_cmp period_cmp_trans period_cmp_gt
                             admission_month df) as Hs.
  induction Hs as [|p l Hs IH Hall]; constructor.
  - exact IH.
  - eapply Forall_impl; [|exact Hall]. intros q Hq. now apply period_cmp_lt.
Qed.

(** ** The text of a month *)

Lemma digit_compare (a b : Z) :
  Ascii_as_OT.compare (digit a) (digit b) = (a mod 10 ?= b mod 10).
Proof.
  unfold digit.
  assert (Ha : 0 <= a mod 10 < 10) by (apply Z.mod_pos_bound; lia).
  assert (Hb : 0 <= b mod 10 < 10) by (apply Z.mod_pos_bound; lia).
  set (x := a mod 10) in *. set (y := b mod 10) in *. clearbody x y.
  assert (Hx : x = 0 \/ x = 1 \/ x = 2 \/ x = 3 \/ x = 4 \/ x = 5 \/ x = 6 \/ x = 7
               \/ x = 8 \/ x = 9) by lia.
  assert (Hy : y = 0 \/ y = 1 \/ y = 2 \/ y = 3 \/ y = 4 \/ y = 5 \/ y = 6 \/ y = 7
               \/ y = 8 \/ y = 9) by lia.
  repeat (destruct Hx as [->|Hx]); try subst x;
    repeat (destruct Hy as [->|Hy]); try subst y; reflexivity.
Qed.

(** Between the years 0 and 9999 the texts of two months compare as the
    months do. *)
Lemma period_str_order (p q : Period) :
  0 <= p_year p < 10000 -> 0 <= p_year q < 10000 ->
  0 <= p_month p < 100 -> 0 <= p_month q < 100 ->
  string_cmp (period_str p) (period_str q) = period_cmp p q.
Proof.
  destruct p as [y m], q as [y' m']. cbn [p_year p_month]. intros Hy Hy' Hm Hm'.
  unfold string_cmp, period_str, period_cmp. cbn [p_year p_month String_as_OT.compare].
  rewrite !digit_compare.
  change (Ascii_as_OT.compare "-" "-") with Eq. cbv iota.
  repeat match goal with
         | |- context [?a mod 10 ?= ?b mod 10] =>
           destruct (Z.compare_spec (a mod 10) (b mod 10))
         end;
    destruct (Z.compare_spec y y'); destruct (Z.compare_spec m m');
    try reflexivity; exfalso; Z.div_mod_to_equations; lia.
Qed.

(** C7. The monthly_trends array of the results file is in chronological
    order: two consecutive entries are the texts of two months of the
    monthly table, the first of which is strictly earlier than the
    second; and for admission dates within the bounds of a timestamp the
    texts themselves are in strictly increasing order. *)
Theorem monthly_trends_chronological (observed : bool) (df : DataFrame) (i : nat)
        (e1 e2 : Trend.t)
        (H1 : nth_error (Dashboard.monthly_trends (dashboard_data observed df)) i = Some e1)
        (H2 : nth_error (Dashboard.monthly_trends (dashboard_data observed df)) (S i)
              = Some e2) :
  (exists p1 p2 : Period,
      nth_error (map Monthly.admission_month (monthly_trends df)) i = Some p1
      /\ nth_error (map Monthly.admission_month (monthly_trends df)) (S i) = Some p2
      /\ Trend.month e1 = period_str p1
      /\ Trend.month e2 = period_str p2
      /\ period_lt p1 p2)
  /\ ((forall r t, In r df -> admission_date r = Some t -> in_timestamp_range t) ->
      string_cmp (Trend.month e1) (Trend.month e2) = Lt).
Proof.
  cbn [dashboard_data Dashboard.monthly_trends] in H1, H2.
  rewrite nth_error_map in H1, H2.
  destruct (nth_error (monthly_trends df) i) as [m1|] eqn:Hm1; [|discriminate].
  destruct (nth_error (monthly_trends df) (S i)) as [m2|] eqn:Hm2; [|discriminate].
  inversion H1; inversion H2; subst.
  assert (Hp1 : nth_error (map Monthly.admission_month (monthly_trends df)) i
                = Some (Monthly.admission_month m1))
    by (rewrite nth_error_map, Hm1; reflexivity).
  assert (Hp2 : nth_error (map Monthly.admission_month (monthly_trends df)) (S i)
                = Some (Monthly.admission_month m2))
    by (rewrite nth_error_map, Hm2; reflexivity).
  pose proof (sorted_consecutive _ _ (monthly_trends_sorted df) i _ _ Hp1 Hp2) as Hlt.
  split.
  - exists (Monthly.admission_month m1), (Monthly.admission_month m2).
    repeat split; assumption.
  - intros Hrange. cbn [trend_record Trend.month].
    assert (Hin : forall p, In p (map Monthly.admission_month (monthly_trends df)) ->
                            0 <= p_year p < 10000 /\ 0 <= p_month p < 100).
    { intros p Hp. rewrite monthly_index in Hp.
      apply groupby_keys_from_rows in Hp. destruct Hp as (r & Hr & Hkey).
      unfold admission_month in Hkey.
      destruct (admission_date r) as [t|] eqn:Ht; [|discriminate].
      injection Hkey as <-. destruct (Hrange r t Hr Ht) as [Hy Hm].
      cbn [to_period_M p_year p_month]. lia. }
    destruct (Hin _ (nth_error_In _ _ Hp1)) as [Hy1 Hmo1].
    destruct (Hin _ (nth_error_In _ _ Hp2)) as [Hy2 Hmo2].
    rewrite period_str_order by assumption. now apply period_cmp_lt.
Qed.

Lemma monthly_trends_chronological_witness :
  map Trend.month (Dashboard.monthly_trends (dashboard_data false out_of_order))
  = ["2022-12"; "2023-01"; "2023-02"]%string
  /\ (exists p1 p2 : Period,
        nth_error (map Monthly.admission_month (monthly_trends out_of_order)) 0 = Some p1
        /\ nth_error (map Monthly.admission_month (monthly_trends out_of_order)) 1 = Some p2
        /\ "2022-12"%string = period_str p1
        /\ "2023-01"%string = period_str p2
        /\ period_lt p1 p2).
Proof.
  split; [reflexivity|].
  exact (proj1 (monthly_trends_chronological false out_of_order 0
                  (Trend.mk "2022-12" 2 (Fin 250)) (Trend.mk "2023-01" 1 (Fin 300))
                  eq_refl eq_refl)).
Defined.

(** ** The run *)

(** The run writes the file exactly when the search for the best and
    worst condition succeeds, and then it writes [dashboard_data]. *)
Lemma analysis_writes (observed : bool) (df : DataFrame) (d : Dashboard.t) :
  analysis observed df = Ok d
  <-> (exists f, key_findings (condition_stats df) = Ok f)
      /\ d = dashboard_data observed df.
Proof.
  unfold analysis. destruct (key_findings (condition_stats df)) as [f|e]; cbn [bind].
  - split.
    + intros [= <-]. split; [now exists f | reflexivity].
    + intros [_ ->]. reflexivity.
  - split; [discriminate | intros [[f Hf] _]; discriminate].
Qed.

(** On the three sample encounters the run completes. *)
Lemma analysis_completes_on_sample :
  analysis false three_encounters = Ok (dashboard_data false three_encounters)
  /\ key_findings (condition_stats three_encounters) = Ok (mkFindings (Text "Flu") (Text "Flu") (Text "Flu"))
  /\ summary three_encounters
     = Summary.mk 3 (Fin 2) (Fin 200) (Fin (333 # 10)) (Fin 0).
Proof.
  repeat split; reflexivity.
Qed.

(** A missing value can end the run later: when every outcome of the
    table is unmapped, the success rates of all conditions are missing
    and the search for the best condition fails. *)
Lemma unmapped_outcomes_end_the_run_later :
  map success_binary lowercase_yes = [None]
  /\ map ByCondition.Success_Rate (condition_stats lowercase_yes) = [NaN]
  /\ analysis false lowercase_yes = Fault ArgAllMissing.
Proof.
  repeat split; reflexivity.
Qed.

(** ** The empty table *)

(** C9, as amended.  On the empty table the cleaning step returns the
    empty table and the two rates are computed without any fault: each
    is 0 / 0, which is NaN.  The run then dies in the search for the best
    condition, the by-condition table having no row, before the results
    file is written. *)
Theorem empty_table_ends_in_fault (observed : bool) :
  data_cleaning [] = Ok []
  /\ total_patients [] = 0
  /\ success_rate [] = NaN
  /\ readmission_rate [] = NaN
  /\ condition_stats [] = []
  /\ key_findings (condition_stats []) = Fault ArgOfEmpty
  /\ script observed [] = Fault ArgOfEmpty
  /\ forall d, script observed [] <> Ok d.
Proof.
  repeat split; try reflexivity. intros d. discriminate.
Qed.

(** C9, as stated, fails: on the empty table the rate calculations give
    NaN and raise nothing, and the fault that ends the run is not a
    division by zero. *)
Lemma empty_table_counterexample :
  series_sum (binary_column success_binary (@nil Encounter)) = 0%Q
  /\ np_truediv 0 (total_patients []) = NaN
  /\ success_rate [] = NaN
  /\ readmission_rate [] = NaN
  /\ script false [] <> Fault ZeroDivision
  /\ script true [] <> Fault ZeroDivision.
Proof.
  repeat split; try reflexivity; discriminate.
Qed.

(** * Further properties *)

(** ** Groups and their keys *)

Section GroupByComplete.

Context {K : Type} (cmp : K -> K -> comparison).

Hypothesis cmp_eq : forall a b, cmp a b = Eq <-> a = b.
Hypothesis cmp_trans : forall a b c, cmp a b = Lt -> cmp b c = Lt -> cmp a c = Lt.
Hypothesis cmp_gt : forall a b, cmp a b = Gt -> cmp b a = Lt.

Lemma group_of_in k gs rows :
  group_of cmp k gs = rows -> rows <> [] -> In (k, rows) gs.
Proof.
  induction gs as [|[k' rows'] gs IH]; cbn [group_of]; intros Heq Hne.
  - congruence.
  - destruct (same_key cmp k k') eqn:Hk.
    + apply (same_key_true cmp cmp_eq) in Hk. subst. now left.
    + right. now apply IH.
Qed.

Lemma groupby_group_of key df k :
  group_of cmp k (groupby cmp key df) = rows_of cmp key k df.
Proof.
  unfold groupby.
  apply (fold_add_group_of cmp cmp_eq cmp_trans cmp_gt key df [] []); [constructor|].
  intros k0. reflexivity.
Qed.

Lemma rows_of_In key k df r :
  In r (rows_of cmp key k df) <-> In r df /\ key r = Some k.
Proof.
  unfold rows_of. rewrite filter_In. unfold has_category.
  split; intros [Hin Hk]; split; try exact Hin.
  - destruct (key r) as [k'|]; [|discriminate].
    apply (same_key_true cmp cmp_eq) in Hk. now subst.
  - rewrite Hk. apply (same_key_refl cmp cmp_eq).
Qed.

(** Every row with a key is in the group of its key. *)
Lemma groupby_complete key df r k :
  In r df -> key r = Some k -> In (k, rows_of cmp key k df) (groupby cmp key df).
Proof.
  intros Hin Hk. apply group_of_in; [apply groupby_group_of|].
  intros Hnil. assert (Hr : In r (rows_of cmp key k df)) by (apply rows_of_In; auto).
  rewrite Hnil in Hr. contradiction.
Qed.

Lemma groupby_keys_iff key df k :
  In k (keys (groupby cmp key df)) <-> exists r, In r df /\ key r = Some k.
Proof.
  split; [apply groupby_keys_from_rows|].
  intros (r & Hr & Hk). unfold keys.
  change k with (fst (k, rows_of cmp key k df)). apply in_map.
  now apply groupby_complete with r.
Qed.

Lemma strictly_sorted_NoDup (l : list K) :
  StronglySorted (fun a b => cmp a b = Lt) l -> NoDup l.
Proof.
  induction 1 as [|x l Hs IH Hall]; constructor; [|exact IH].
  intros Hin. rewrite Forall_forall in Hall. specialize (Hall x Hin).
  rewrite (proj2 (cmp_eq x x) eq_refl) in Hall. discriminate.
Qed.

End GroupByComplete.

(** ** The best and the worst cell of a column *)

Section ArgBest.

Context {K : Type} (better : float64 -> float64 -> bool).

Hypothesis better_asym : forall a b, better a b = true -> better b a = false.
Hypothesis better_ntrans : forall a b c,
    is_nan a = false -> is_nan b = false -> is_nan c = false ->
    better a b = false -> better b c = false -> better a c = false.

(** The chosen cell is present and not missing; no cell is better; every
    cell in front of it is strictly worse. *)
Lemma arg_best_spec (col : list (K * float64)) (k : K) (v : float64) :
  arg_best better col = Some (k, v) ->
  is_nan v = false
  /\ (forall k' v', In (k', v') col -> is_nan v' = false -> better v' v = false)
  /\ exists pre post,
      col = pre ++ (k, v) :: post
      /\ forall k' v', In (k', v') pre -> is_nan v' = false -> better v v' = true.
Proof.
  revert k v. induction col as [|[k0 v0] col IH]; intros k v; cbn [arg_best]; [discriminate|].
  destruct (is_nan v0) eqn:Hn0.
  - destruct v0; try discriminate. intros H. destruct (IH _ _ H) as (Hv & Hmax & pre & post & Hcol & Hpre).
    split; [exact Hv|]. split.
    + intros k' v' [Heq|Hin] Hv'; [inversion Heq; subst; discriminate | now apply Hmax with k'].
    + exists ((k0, NaN) :: pre), post. split; [now rewrite Hcol|].
      intros k' v' [Heq|Hin] Hv'; [inversion Heq; subst; discriminate | now apply Hpre with k'].
  - assert (Hstep : match arg_best better col with
                    | Some (k', v') => if better v' v0 then Some (k', v') else Some (k0, v0)
                    | None => Some (k0, v0)
                    end = Some (k, v) ->
                    is_nan v = false
                    /\ (forall k' v', In (k', v') ((k0, v0) :: col) -> is_nan v' = false ->
                                      better v' v = false)
                    /\ exists pre post,
                        (k0, v0) :: col = pre ++ (k, v) :: post
                        /\ forall k' v', In (k', v') pre -> is_nan v' = false ->
                                         better v v' = true).
    { destruct (arg_best better col) as [[k1 v1]|] eqn:Hbest.
      - destruct (IH _ _ eq_refl) as (Hv1 & Hmax & pre & post & Hcol & Hpre).
        destruct (better v1 v0) eqn:Hb; intros [= <- <-].
        + split; [exact Hv1|]. split.
          * intros k' v' [Heq|Hin] Hv'; [inversion Heq; subst; now apply better_asym
                                        | now apply Hmax with k'].
          * exists ((k0, v0) :: pre), post. split; [now rewrite Hcol|].
            intros k' v' [Heq|Hin] Hv'; [inversion Heq; subst; exact Hb | now apply Hpre with k'].
        + split; [exact Hn0|]. split.
          * intros k' v' [Heq|Hin] Hv'.
            -- inversion Heq; subst. destruct (better v' v') eqn:Hs; [|reflexivity].
               now rewrite (better_asym _ _ Hs) in Hs.
            -- apply better_ntrans with v1; auto. now apply Hmax with k'.
          * exists [], col. split; [reflexivity | intros ? ? []].
      - intros [= <- <-]. split; [exact Hn0|]. split.
        + intros k' v' [Heq|Hin] Hv'.
          * inversion Heq; subst. destruct (better v' v') eqn:Hs; [|reflexivity].
            now rewrite (better_asym _ _ Hs) in Hs.
          * exfalso. clear - Hbest Hin Hv'. induction col as [|[k2 v2] col IHc]; [contradiction|].
            cbn [arg_best] in Hbest. destruct Hin as [Heq|Hin].
            -- inversion Heq; subst. destruct v'; try discriminate;
                 destruct (arg_best better col) as [[? ?]|]; try discriminate;
                 destruct (better _ _); discriminate.
            -- destruct v2; try (now apply IHc);
                 destruct (arg_best better col) as [[? ?]|]; try discriminate;
                 destruct (better _ _); discriminate.
        + exists [], col. split; [reflexivity | intros ? ? []]. }
    destruct v0; try discriminate; exact Hstep.
Qed.

(** The search fails exactly on a column without any cell that is not
    missing. *)
Lemma arg_best_none (col : list (K * float64)) :
  arg_best better col = None <-> forall k v, In (k, v) col -> is_nan v = true.
Proof.
  induction col as [|[k0 v0] col IH]; cbn [arg_best].
  - split; [intros _ ? ? [] | reflexivity].
  - destruct v0.
    1-3: split; [|intros H; specialize (H k0 _ (or_introl eq_refl)); discriminate];
      destruct (arg_best better col) as [[? ?]|]; [destruct (better _ _)|]; discriminate.
    rewrite IH. split.
    + intros H k v [Heq|Hin]; [inversion Heq; reflexivity | now apply H with k].
    + intros H k v Hin. apply H with k. now right.
Qed.

End ArgBest.

Lemma float_gt_asym (a b : float64) : float_gt a b = true -> float_gt b a = false.
Proof.
  destruct a as [x| | |], b as [y| | |]; cbn [float_gt]; try reflexivity; try discriminate.
  rewrite Qltb_lt, Qltb_ge. apply Qlt_le_weak.
Qed.

Lemma float_gt_ntrans (a b c : float64) :
  is_nan a = false -> is_nan b = false -> is_nan c = false ->
  float_gt a b = false -> float_gt b c = false -> float_gt a c = false.
Proof.
  destruct a as [x| | |], b as [y| | |], c as [z| | |]; cbn [float_gt is_nan];
    try reflexivity; try discriminate.
  rewrite !Qltb_ge. intros _ _ _ H1 H2. now apply Qle_trans with y.
Qed.

Lemma float_lt_asym (a b : float64) : float_gt b a = true -> float_gt a b = false.
Proof.
  apply float_gt_asym.
Qed.

Lemma float_lt_ntrans (a b c : float64) :
  is_nan a = false -> is_nan b = false -> is_nan c = false ->
  float_gt b a = false -> float_gt c b = false -> float_gt c a = false.
Proof.
  intros Ha Hb Hc H1 H2. now apply float_gt_ntrans with b.
Qed.

Lemma idx_best_ok {K : Type} (better : float64 -> float64 -> bool)
      (col : list (K * float64)) (k : K) :
  idx_best better col = Ok k -> exists v, arg_best better col = Some (k, v).
Proof.
  unfold idx_best. destruct col as [|c col]; [discriminate|].
  destruct (arg_best better (c :: col)) as [[k' v]|]; [|discriminate].
  intros [= <-]. now exists v.
Qed.

(** The search raises exactly on a column without any cell that is not
    missing (an empty column included). *)
Lemma idx_best_succeeds {K : Type} (better : float64 -> float64 -> bool)
      (col : list (K * float64)) :
  (exists k, idx_best better col = Ok k)
  <-> exists k v, In (k, v) col /\ is_nan v = false.
Proof.
  unfold idx_best. split.
  - intros [k Hk]. destruct col as [|c col]; [discriminate|].
    destruct (arg_best better (c :: col)) as [[k' v]|] eqn:Hb; [|discriminate].
    destruct (is_nan v) eqn:Hv.
    + exfalso. clear Hk. revert k' v Hb Hv.
      generalize (c :: col) as l. induction l as [|[k0 v0] l IH]; intros k' v; cbn [arg_best];
        [discriminate|].
      destruct v0; try (now apply IH);
        (destruct (arg_best better l) as [[k1 v1]|] eqn:Hl;
         [destruct (better v1 _); intros [= <- <-]; [now apply (IH k1 v1)|discriminate]
         |intros [= <- <-]; discriminate]).
    + exists k', v. split; [|exact Hv].
      clear Hk Hv. revert k' v Hb.
      generalize (c :: col) as l. induction l as [|[k0 v0] l IH]; intros k' v; cbn [arg_best];
        [discriminate|].
      destruct v0; try (intros H; right; now apply IH);
        (destruct (arg_best better l) as [[k1 v1]|] eqn:Hl;
         [destruct (better v1 _); intros [= <- <-]; [right; now apply IH | now left]
         |intros [= <- <-]; now left]).
  - intros (k & v & Hin & Hv). destruct col as [|c col]; [contradiction|].
    destruct (arg_best better (c :: col)) as [[k' v']|] eqn:Hb; [now exists k'|].
    rewrite arg_best_none in Hb. rewrite (Hb k v Hin) in Hv. discriminate.
Qed.

Lemma sorted_app_after {A : Type} (R : A -> A -> Prop) (l1 l2 : list A) (x : A) :
  StronglySorted R (l1 ++ x :: l2) -> Forall (R x) l2.
Proof.
  induction l1 as [|y l1 IH]; cbn [app]; intros Hs; inversion Hs; subst; auto.
Qed.

Lemma condition_stats_sorted (df : DataFrame) :
  StronglySorted label_lt (map ByCondition.condition (condition_stats df)).
Proof.
  unfold condition_stats. rewrite map_map. cbn [condition_row ByCondition.condition].
  exact (groupby_sorted label_cmp label_cmp_trans label_cmp_gt condition df).
Qed.

Lemma idx_best_first_best (better : float64 -> float64 -> bool)
      (better_asym : forall a b, better a b = true -> better b a = false)
      (better_ntrans : forall a b c,
          is_nan a = false -> is_nan b = false -> is_nan c = false ->
          better a b = false -> better b c = false -> better a c = false)
      (cs : list ByCondition.t) (value : ByCondition.t -> float64) (name : label) :
  StronglySorted label_lt (map ByCondition.condition cs) ->
  idx_best better (map (fun e => (ByCondition.condition e, value e)) cs) = Ok name ->
  first_best cs value better name.
Proof.
  intros Hsorted Hidx. apply idx_best_ok in Hidx. destruct Hidx as [v Hbest].
  destruct (arg_best_spec better better_asym better_ntrans _ _ _ Hbest)
    as (Hv & Hmax & pre & post & Hcol & Hpre).
  assert (Hin : In (name, v) (map (fun e => (ByCondition.condition e, value e)) cs))
    by (rewrite Hcol; apply in_elt).
  apply in_map_iff in Hin. destruct Hin as (e & Heq & He). injection Heq as Hname Hval.
  exists e. repeat split; try assumption.
  - now rewrite Hval.
  - intros e' He' Hn'. rewrite Hval. apply Hmax with (ByCondition.condition e'); [|exact Hn'].
    apply in_map_iff. now exists e'.
  - intros e' He' Hn' Hlt. rewrite Hval.
    assert (Hin' : In (ByCondition.condition e', value e')
                      (map (fun e => (ByCondition.condition e, value e)) cs))
      by (apply in_map_iff; now exists e').
    rewrite Hcol in Hin'. apply in_app_or in Hin'. destruct Hin' as [Hp|[Heq'|Hpost]].
    + now apply Hpre with (ByCondition.condition e').
    + injection Heq' as Hk _. unfold label_lt in Hlt. rewrite <- Hk in Hlt.
      exfalso. rewrite (proj2 (label_cmp_eq name name) eq_refl) in Hlt. discriminate.
    + exfalso.
      assert (Hkeys : map ByCondition.condition cs
                      = map fst pre ++ name :: map fst post).
      { transitivity (map fst (map (fun e => (ByCondition.condition e, value e)) cs)).
        - rewrite map_map. reflexivity.
        - rewrite Hcol, map_app. reflexivity. }
      rewrite Hkeys in Hsorted. apply sorted_app_after in Hsorted.
      rewrite Forall_forall in Hsorted.
      assert (Hgt : label_lt name (ByCondition.condition e')).
      { apply Hsorted. change (ByCondition.condition e') with (fst (ByCondition.condition e', value e')).
        now apply in_map. }
      pose proof (label_cmp_trans _ _ _ Hgt Hlt) as Hirr.
      rewrite (proj2 (label_cmp_eq name name) eq_refl) in Hirr. discriminate.
Qed.

(** X4. The three findings of step 4: the best condition has the highest
    success rate, the worst condition the lowest, the most expensive one
    the highest average cost; among equal values the condition that
    comes first in the order of the table is taken: of two conditions
    written as numbers the smaller one, of two texts the one that is
    first by code point. *)
Theorem key_findings_are_first_extremes (df : DataFrame) (f : Findings)
        (Hfound : key_findings (condition_stats df) = Ok f) :
  first_best (condition_stats df) ByCondition.Success_Rate float_gt (best_condition f)
  /\ first_best (condition_stats df) ByCondition.Success_Rate
                (fun a b => float_gt b a) (worst_condition f)
  /\ first_best (condition_stats df) ByCondition.Avg_Cost float_gt (most_expensive f).
Proof.
  unfold key_findings, idxmax, idxmin, Success_Rate_column, Avg_Cost_column in Hfound.
  destruct (idx_best float_gt
              (map (fun e => (ByCondition.condition e, ByCondition.Success_Rate e))
                   (condition_stats df))) as [best|] eqn:Hbest; [|discriminate].
  cbn [bind] in Hfound.
  destruct (idx_best (fun a b => float_gt b a)
              (map (fun e => (ByCondition.condition e, ByCondition.Success_Rate e))
                   (condition_stats df))) as [worst|] eqn:Hworst; [|discriminate].
  cbn [bind] in Hfound.
  destruct (idx_best float_gt
              (map (fun e => (ByCondition.condition e, ByCondition.Avg_Cost e))
                   (condition_stats df))) as [dear|] eqn:Hdear; [|discriminate].
  cbn [bind] in Hfound. injection Hfound as <-. cbn [best_condition worst_condition most_expensive].
  pose proof (condition_stats_sorted df) as Hs.
  split; [|split].
  - exact (idx_best_first_best _ float_gt_asym float_gt_ntrans _ _ _ Hs Hbest).
  - exact (idx_best_first_best _ float_lt_asym float_lt_ntrans _ _ _ Hs Hworst).
  - exact (idx_best_first_best _ float_gt_asym float_gt_ntrans _ _ _ Hs Hdear).
Qed.

(** Of the conditions 10 and 9, which have the same rates and costs, the
    findings name 9. *)
Lemma key_findings_are_first_extremes_witness :
  map ByCondition.condition (condition_stats numbered_conditions)
  = [Number (Q2Qc 9); Number (Q2Qc 10)]
  /\ map ByCondition.Success_Rate (condition_stats numbered_conditions) = [Fin 100; Fin 100]
  /\ first_best (condition_stats numbered_conditions) ByCondition.Success_Rate float_gt
                (Number (Q2Qc 9))
  /\ first_best (condition_stats numbered_conditions) ByCondition.Success_Rate
                (fun a b => float_gt b a) (Number (Q2Qc 9))
  /\ first_best (condition_stats numbered_conditions) ByCondition.Avg_Cost float_gt
                (Number (Q2Qc 9)).
Proof.
  split; [reflexivity|]. split; [reflexivity|].
  exact (key_findings_are_first_extremes numbered_conditions
           (mkFindings (Number (Q2Qc 9)) (Number (Q2Qc 9)) (Number (Q2Qc 9))) eq_refl).
Defined.

(** ** When the results file is written *)

Lemma is_nan_fround (d : nat) (x : float64) : is_nan (fround d x) = is_nan x.
Proof.
  now destruct x.
Qed.

Lemma is_nan_to_percent (x : float64) : is_nan (to_percent x) = is_nan x.
Proof.
  now destruct x.
Qed.

Lemma dropna_In {A : Type} (col : list (option A)) (a : A) :
  In a (dropna col) <-> In (Some a) col.
Proof.
  induction col as [|[b|] col IH]; cbn [dropna In].
  - tauto.
  - rewrite IH. split; intros [H|H]; auto; left; congruence.
  - rewrite IH. split; [auto | intros [H|H]; [discriminate | exact H]].
Qed.

(** A mean is missing exactly when every cell is missing. *)
Lemma series_mean_present (col : list (option Q)) :
  is_nan (series_mean col) = false <-> exists q, In (Some q) col.
Proof.
  unfold series_mean. destruct (dropna col) as [|v vals] eqn:Hd; cbn [is_nan].
  - split; [discriminate|]. intros [q Hq]. apply dropna_In in Hq. rewrite Hd in Hq.
    contradiction.
  - split; [|reflexivity]. intros _. exists v. apply dropna_In. rewrite Hd. now left.
Qed.

Lemma map_yes_no_present (c : cell) : map_yes_no c <> None <-> yes_or_no c.
Proof.
  unfold yes_or_no. destruct c as [s| | |]; cbn [map_yes_no];
    try (split; [congruence | intros [H|H]; discriminate]).
  destruct (String.eqb_spec s "Yes") as [->|Hy]; [split; [auto | discriminate]|].
  destruct (String.eqb_spec s "No") as [->|Hn]; [split; [auto | discriminate]|].
  split; [congruence | intros [H|H]; congruence].
Qed.

Lemma binary_column_present (f : Encounter -> option Z) (rows : DataFrame) :
  (exists q, In (Some q) (binary_column f rows)) <-> exists r, In r rows /\ f r <> None.
Proof.
  unfold binary_column. split.
  - intros [q Hq]. apply in_map_iff in Hq. destruct Hq as (r & Hr & Hin).
    exists r. split; [exact Hin|]. destruct (f r); [discriminate | discriminate].
  - intros (r & Hin & Hr). destruct (f r) as [z|] eqn:Hf; [|contradiction].
    exists (inject_Z z). apply in_map_iff. exists r. now rewrite Hf.
Qed.

Lemma cell_column_present (f : Encounter -> option Q) (rows : DataFrame) :
  (exists q, In (Some q) (map f rows)) <-> exists r, In r rows /\ f r <> None.
Proof.
  split.
  - intros [q Hq]. apply in_map_iff in Hq. destruct Hq as (r & Hr & Hin).
    exists r. split; [exact Hin | congruence].
  - intros (r & Hin & Hr). destruct (f r) as [q|] eqn:Hf; [|contradiction].
    exists q. apply in_map_iff. exists r. auto.
Qed.

Lemma condition_rows_In (df : DataFrame) (c : label) (r : Encounter) :
  In r (rows_of label_cmp condition c df) <-> In r df /\ condition r = Some c.
Proof.
  apply rows_of_In. exact label_cmp_eq.
Qed.

(** A condition has a record with a success rate (an average cost) that
    is not missing exactly when one of its rows has a mapped outcome (a
    cost). *)
Lemma condition_stats_present (df : DataFrame) :
  ((exists k v, In (k, v) (Success_Rate_column (condition_stats df)) /\ is_nan v = false)
   <-> exists r, In r df /\ condition r <> None /\ yes_or_no (treatment_success r))
  /\ ((exists k v, In (k, v) (Avg_Cost_column (condition_stats df)) /\ is_nan v = false)
      <-> exists r, In r df /\ condition r <> None /\ total_cost r <> None).
Proof.
  unfold Success_Rate_column, Avg_Cost_column, condition_stats. rewrite !map_map.
  cbn [condition_row ByCondition.condition ByCondition.Success_Rate ByCondition.Avg_Cost].
  split; split.
  - intros (k & v & Hin & Hv). apply in_map_iff in Hin. destruct Hin as ([c rows] & Heq & Hg).
    cbn [fst snd] in Heq. injection Heq as _ <-.
    rewrite is_nan_to_percent, is_nan_fround in Hv.
    apply series_mean_present, binary_column_present in Hv. destruct Hv as (r & Hr & Hs).
    apply groupby_label_rows in Hg. subst rows. apply condition_rows_In in Hr.
    destruct Hr as [Hr Hc]. exists r. split; [exact Hr|]. split; [congruence|].
    now apply map_yes_no_present.
  - intros (r & Hr & Hc & Hs). destruct (condition r) as [c|] eqn:Hcr; [|contradiction].
    exists c. eexists. split.
    + apply in_map_iff. exists (c, rows_of label_cmp condition c df). split; [reflexivity|].
      exact (groupby_complete label_cmp label_cmp_eq label_cmp_trans label_cmp_gt
               condition df r c Hr Hcr).
    + cbn [snd]. rewrite is_nan_to_percent, is_nan_fround.
      apply series_mean_present, binary_column_present. exists r. split.
      * now apply condition_rows_In.
      * now apply map_yes_no_present.
  - intros (k & v & Hin & Hv). apply in_map_iff in Hin. destruct Hin as ([c rows] & Heq & Hg).
    cbn [fst snd] in Heq. injection Heq as _ <-.
    rewrite is_nan_fround in Hv.
    apply series_mean_present, cell_column_present in Hv. destruct Hv as (r & Hr & Hs).
    apply groupby_label_rows in Hg. subst rows. apply condition_rows_In in Hr.
    destruct Hr as [Hr Hc]. exists r. split; [exact Hr|]. split; [congruence | exact Hs].
  - intros (r & Hr & Hc & Hs). destruct (condition r) as [c|] eqn:Hcr; [|contradiction].
    exists c. eexists. split.
    + apply in_map_iff. exists (c, rows_of label_cmp condition c df). split; [reflexivity|].
      exact (groupby_complete label_cmp label_cmp_eq label_cmp_trans label_cmp_gt
               condition df r c Hr Hcr).
    + cbn [snd]. rewrite is_nan_fround.
      apply series_mean_present, cell_column_present. exists r. split.
      * now apply condition_rows_In.
      * exact Hs.
Qed.

Lemma analysis_succeeds_iff (observed : bool) (df : DataFrame) :
  (exists d, analysis observed df = Ok d)
  <-> (exists r, In r df /\ condition r <> None /\ yes_or_no (treatment_success r))
      /\ (exists r, In r df /\ condition r <> None /\ total_cost r <> None).
Proof.
  destruct (condition_stats_present df) as [Hrate Hcost].
  rewrite <- Hrate, <- Hcost.
  rewrite <- (idx_best_succeeds float_gt (Success_Rate_column (condition_stats df))).
  rewrite <- (idx_best_succeeds float_gt (Avg_Cost_column (condition_stats df))).
  pose proof (idx_best_succeeds (fun a b => float_gt b a)
                                (Success_Rate_column (condition_stats df))) as Hmin.
  rewrite <- (idx_best_succeeds float_gt) in Hmin.
  unfold analysis, key_findings, idxmax, idxmin. split.
  - intros [d Hd].
    destruct (idx_best float_gt (Success_Rate_column (condition_stats df))) as [b|];
      [|discriminate]. cbn [bind] in Hd.
    destruct (idx_best (fun a b => float_gt b a)
                       (Success_Rate_column (condition_stats df))) as [w|];
      [|discriminate]. cbn [bind] in Hd.
    destruct (idx_best float_gt (Avg_Cost_column (condition_stats df))) as [m|];
      [|discriminate]. split; eexists; reflexivity.
  - intros [[b Hb] [m Hm]].
    assert (Hw : exists w, idx_best (fun a b => float_gt b a)
                                    (Success_Rate_column (condition_stats df)) = Ok w).
    { apply Hmin. now exists b. }
    destruct Hw as [w Hw]. rewrite Hb, Hw, Hm. cbn [bind]. eexists. reflexivity.
Qed.

(** X5. The run reaches the results file exactly when some row with a
    condition has an outcome that is Yes or No and some row with a
    condition has a cost; otherwise the lookup of the best, the worst or
    the most expensive condition fails and nothing is written. *)
Theorem results_file_written_iff (observed : bool) (df : DataFrame) :
  ((exists d, analysis observed df = Ok d)
   <-> (exists r, In r df /\ condition r <> None /\ yes_or_no (treatment_success r))
       /\ (exists r, In r df /\ condition r <> None /\ total_cost r <> None))
  /\ ((forall d, analysis observed df <> Ok d)
      <-> (forall r, In r df -> condition r <> None ->
                     ~ yes_or_no (treatment_success r))
          \/ (forall r, In r df -> condition r <> None -> total_cost r = None)).
Proof.
  pose proof (analysis_succeeds_iff observed df) as Hiff. split; [exact Hiff|]. split.
  - intros Hno.
    destruct (idx_best float_gt (Success_Rate_column (condition_stats df))) as [b|fb] eqn:Hb.
    + right. intros r Hr Hc. destruct (total_cost r) eqn:Hcost; [|reflexivity].
      exfalso.
      assert (H1 : exists r, In r df /\ condition r <> None
                             /\ yes_or_no (treatment_success r)).
      { apply (proj1 (condition_stats_present df)).
        apply (idx_best_succeeds float_gt). now exists b. }
      assert (H2 : exists r, In r df /\ condition r <> None /\ total_cost r <> None).
      { exists r. split; [exact Hr|]. split; [exact Hc | congruence]. }
      destruct (proj2 Hiff (conj H1 H2)) as [d' Hd']. exact (Hno d' Hd').
    + left. intros r Hr Hc Hy.
      assert (Hex : exists k, idx_best float_gt
                                       (Success_Rate_column (condition_stats df)) = Ok k).
      { apply idx_best_succeeds. apply (proj2 (proj1 (condition_stats_present df))).
        now exists r. }
      destruct Hex as [k Hk]. congruence.
  - intros Hor d' Hd'.
    assert (Hex : exists d0, analysis observed df = Ok d0) by now exists d'.
    apply Hiff in Hex. destruct Hex as [(r1 & Hr1 & Hc1 & Hy1) (r2 & Hr2 & Hc2 & Hp2)].
    destruct Hor as [H|H]; [exact (H r1 Hr1 Hc1 Hy1) | exact (Hp2 (H r2 Hr2 Hc2))].
Qed.

(** ** The cleaning step, whatever the dates *)

Lemma mapM_ok_parsed {A : Type} (cell_of : A -> date_text) (l : list A)
      (ts : list (option Timestamp)) :
  mapM (fun x => to_datetime (cell_of x)) l = Ok ts
  <-> (forall x, In x l -> readable (cell_of x)) /\ ts = map (fun x => parsed (cell_of x)) l.
Proof.
  revert ts. induction l as [|x l IH]; intros ts; cbn [mapM map].
  - split; [intros [= <-]; split; [intros ? [] | reflexivity] | intros [_ ->]; reflexivity].
  - destruct (cell_of x) as [t|text|] eqn:Hc; cbn [to_datetime bind].
    + destruct (mapM (fun x0 => to_datetime (cell_of x0)) l) as [ts'|f] eqn:Hl; cbn [bind].
      * destruct (proj1 (IH ts') eq_refl) as [Hall ->]. split.
        -- intros [= <-]. split; [|reflexivity].
           intros y [<-|Hy]; [now rewrite Hc | now apply Hall].
        -- intros [_ ->]. reflexivity.
      * split; [discriminate|]. intros [Hall _].
        assert (Hok : @Fault (list (option Timestamp)) f
                      = Ok (map (fun x0 => parsed (cell_of x0)) l)).
        { apply IH. split; [|reflexivity]. intros y Hy. apply Hall. now right. }
        discriminate.
    + split; [discriminate|]. intros [Hall _].
      specialize (Hall x (or_introl eq_refl)). rewrite Hc in Hall. contradiction.
    + destruct (mapM (fun x0 => to_datetime (cell_of x0)) l) as [ts'|f] eqn:Hl; cbn [bind].
      * destruct (proj1 (IH ts') eq_refl) as [Hall ->]. split.
        -- intros [= <-]. split; [|reflexivity].
           intros y [<-|Hy]; [now rewrite Hc | now apply Hall].
        -- intros [_ ->]. reflexivity.
      * split; [discriminate|]. intros [Hall _].
        assert (Hok : @Fault (list (option Timestamp)) f
                      = Ok (map (fun x0 => parsed (cell_of x0)) l)).
        { apply IH. split; [|reflexivity]. intros y Hy. apply Hall. now right. }
        discriminate.
Qed.

Lemma mapM_first_garbled {A : Type} (cell_of : A -> date_text) (l : list A) :
  (exists x text, In x l /\ cell_of x = Garbled text) ->
  exists x text, In x l /\ cell_of x = Garbled text
                 /\ mapM (fun y => to_datetime (cell_of y)) l = Fault (UnparseableDate text).
Proof.
  induction l as [|y l IH]; intros (x & text & Hin & Hg); [contradiction|].
  cbn [mapM]. destruct (cell_of y) as [t|text'|] eqn:Hc; cbn [to_datetime bind].
  - destruct Hin as [<-|Hin]; [congruence|].
    destruct (IH (ex_intro _ x (ex_intro _ text (conj Hin Hg)))) as (x' & t' & Hx' & Hg' & Hf).
    exists x', t'. rewrite Hf. cbn [bind]. auto with datatypes.
  - exists y, text'. auto with datatypes.
  - destruct Hin as [<-|Hin]; [congruence|].
    destruct (IH (ex_intro _ x (ex_intro _ text (conj Hin Hg)))) as (x' & t' & Hx' & Hg' & Hf).
    exists x', t'. rewrite Hf. cbn [bind]. auto with datatypes.
Qed.

Lemma assign_parsed_dates (raw : RawFrame) :
  assign_dates raw (map (fun r => parsed (admission_date r)) raw)
               (map (fun r => parsed (discharge_date r)) raw)
  = map clean_row raw.
Proof.
  induction raw as [|r raw IH]; [reflexivity|]. cbn [map assign_dates]. now rewrite IH.
Qed.

Lemma data_cleaning_ok_iff (raw : RawFrame) (df : DataFrame) :
  data_cleaning raw = Ok df
  <-> (forall r, In r raw -> readable (admission_date r) /\ readable (discharge_date r))
      /\ df = map clean_row raw.
Proof.
  unfold data_cleaning. split.
  - destruct (mapM (fun r => to_datetime (admission_date r)) raw) as [adm|] eqn:Ha;
      [|discriminate]. cbn [bind].
    destruct (mapM (fun r => to_datetime (discharge_date r)) raw) as [dis|] eqn:Hd;
      [|discriminate]. cbn [bind]. intros [= <-].
    apply mapM_ok_parsed in Ha. apply mapM_ok_parsed in Hd.
    destruct Ha as [Ha ->]. destruct Hd as [Hd ->]. split; [auto|].
    apply assign_parsed_dates.
  - intros [Hall ->].
    rewrite (proj2 (mapM_ok_parsed admission_date raw _)
                   (conj (fun r Hr => proj1 (Hall r Hr)) eq_refl)). cbn [bind].
    rewrite (proj2 (mapM_ok_parsed discharge_date raw _)
                   (conj (fun r Hr => proj2 (Hall r Hr)) eq_refl)). cbn [bind].
    now rewrite assign_parsed_dates.
Qed.

(** X7. The cleaning step returns the table with its dates parsed and every
    other column as loaded, exactly when every date cell can be read;
    otherwise it dies of an unreadable date, and of an admission date
    whenever one of these is unreadable. *)
Theorem data_cleaning_outcome (raw : RawFrame) :
  (forall df, data_cleaning raw = Ok df
              <-> (forall r, In r raw -> readable (admission_date r)
                                         /\ readable (discharge_date r))
                  /\ df = map clean_row raw)
  /\ (forall f, data_cleaning raw = Fault f ->
                exists r text, In r raw /\ f = UnparseableDate text
                               /\ (admission_date r = Garbled text
                                   \/ discharge_date r = Garbled text))
  /\ ((exists r text, In r raw /\ admission_date r = Garbled text) ->
      exists r text, In r raw /\ admission_date r = Garbled text
                     /\ data_cleaning raw = Fault (UnparseableDate text)).
Proof.
  split; [|split].
  - intros df. apply data_cleaning_ok_iff.
  - intros f. apply data_cleaning_fault.
  - intros Hg. destruct (mapM_first_garbled admission_date raw Hg) as (r & text & Hr & Ht & Hf).
    exists r, text. unfold data_cleaning. rewrite Hf. cbn [bind]. auto.
Qed.

(** ** The script from the loaded table to the file *)






(** ** How far rounding moves a number *)

Lemma round_half_even_near (q : Q) :
  (- (1 # 2) <= inject_Z (round_half_even q) - q <= 1 # 2)%Q.
Proof.
  unfold round_half_even.
  pose proof (Qfloor_le q) as Hlo. pose proof (Qlt_floor q) as Hhi.
  rewrite inject_Z_plus in Hhi. change (inject_Z 1) with 1%Q in Hhi.
  destruct (Qcompare_spec (q - inject_Z (Qfloor q)) (1 # 2)) as [He|Hl|Hg].
  - destruct (Z.even (Qfloor q)); [|rewrite inject_Z_plus; change (inject_Z 1) with 1%Q]; lra.
  - lra.
  - rewrite inject_Z_plus. change (inject_Z 1) with 1%Q. lra.
Qed.

Lemma pow10_pos (d : nat) : (0 < inject_Z (pow10 d))%Q.
Proof.
  unfold pow10. change 0%Q with (inject_Z 0). rewrite <- Zlt_Qlt.
  apply Z.pow_pos_nonneg; lia.
Qed.

Lemma round_to_value (d : nat) (q : Q) :
  (round_to d q == inject_Z (round_half_even (q * inject_Z (pow10 d))) / inject_Z (pow10 d))%Q.
Proof.
  unfold round_to. apply Qred_correct.
Qed.

Lemma round_half_even_between (a b : Z) (q : Q) :
  (inject_Z a <= q <= inject_Z b)%Q -> a <= round_half_even q <= b.
Proof.
  intros [Ha Hb]. pose proof (round_half_even_near q) as [Hlo Hhi].
  set (z := round_half_even q) in *.
  assert (H1 : (inject_Z (2 * a) <= inject_Z (2 * z + 1))%Q).
  { rewrite inject_Z_plus, !inject_Z_mult. change (inject_Z 2) with 2%Q.
    change (inject_Z 1) with 1%Q. lra. }
  assert (H2 : (inject_Z (2 * z) <= inject_Z (2 * b + 1))%Q).
  { rewrite inject_Z_plus, !inject_Z_mult. change (inject_Z 2) with 2%Q.
    change (inject_Z 1) with 1%Q. lra. }
  rewrite <- Zle_Qle in H1, H2. lia.
Qed.

(** Rounding keeps a number between two whole bounds. *)
Lemma round_to_between (d : nat) (a b : Z) (q : Q) :
  (inject_Z a <= q <= inject_Z b)%Q -> (inject_Z a <= round_to d q <= inject_Z b)%Q.
Proof.
  intros [Ha Hb]. pose proof (pow10_pos d) as HP. rewrite round_to_value.
  destruct (round_half_even_between (a * pow10 d) (b * pow10 d) (q * inject_Z (pow10 d)))
    as [Hlo Hhi].
  { rewrite !inject_Z_mult. split; apply Qmult_le_compat_r; auto using Qlt_le_weak. }
  rewrite Zle_Qle, inject_Z_mult in Hlo, Hhi. split.
  - apply Qle_shift_div_l; assumption.
  - apply Qle_shift_div_r; assumption.
Qed.

(** Rounding twice to the same number of digits is rounding once. *)
Lemma round_to_idempotent (d : nat) (q : Q) : round_to d (round_to d q) = round_to d q.
Proof.
  unfold round_to at 1 3. apply Qred_complete.
  pose proof (pow10_pos d) as HP.
  set (P := inject_Z (pow10 d)) in *.
  set (z := round_half_even (q * P)).
  assert (Hz : (round_to d q * P == inject_Z z)%Q).
  { rewrite round_to_value. fold P. fold z. field. lra. }
  rewrite (round_half_even_comp _ _ Hz), round_half_even_Z. reflexivity.
Qed.

Lemma fround_idempotent (d : nat) (x : float64) : fround d (fround d x) = fround d x.
Proof.
  destruct x; cbn [fround]; try reflexivity. now rewrite round_to_idempotent.
Qed.

(** ** Rates are percentages *)

Lemma inject_Z_of_nat_succ (n : nat) :
  (inject_Z (Z.of_nat (S n)) == inject_Z (Z.of_nat n) + 1)%Q.
Proof.
  rewrite Nat2Z.inj_succ. unfold Z.succ. rewrite inject_Z_plus. reflexivity.
Qed.

(** The sum of an encoded column lies between zero and the number of its
    cells that are not missing. *)
Lemma binary_sum_bounds {D : Type} (c : Row D -> cell) (rows : list (Row D)) :
  (0 <= Qsum (dropna (binary_column (fun r => map_yes_no (c r)) rows))
   <= inject_Z (Z.of_nat (List.length
                            (dropna (binary_column (fun r => map_yes_no (c r)) rows)))))%Q.
Proof.
  induction rows as [|r rows IH]; cbn [binary_column map].
  - cbn [dropna Qsum fold_right List.length]. change (inject_Z (Z.of_nat 0)) with 0%Q. lra.
  - fold (binary_column (fun r => map_yes_no (c r)) rows).
    destruct (c r) as [s| | |]; cbn [map_yes_no option_map dropna]; try exact IH.
    destruct (s =? "Yes")%string; [|destruct (s =? "No")%string];
      cbn [option_map dropna Qsum fold_right List.length]; try exact IH;
      fold (Qsum (dropna (binary_column (fun r => map_yes_no (c r)) rows)));
      rewrite inject_Z_of_nat_succ; [change (inject_Z 1) with 1%Q | change (inject_Z 0) with 0%Q];
      lra.
Qed.

Lemma binary_mean_bounds {D : Type} (c : Row D -> cell) (rows : list (Row D)) (m : Q) :
  series_mean (binary_column (fun r => map_yes_no (c r)) rows) = Fin m -> (0 <= m <= 1)%Q.
Proof.
  unfold series_mean. pose proof (binary_sum_bounds c rows) as Hb.
  destruct (dropna (binary_column (fun r => map_yes_no (c r)) rows)) as [|v vals];
    [discriminate|].
  intros Hm. apply Fin_inj in Hm. subst m.
  assert (Hpos : (0 < inject_Z (Z.of_nat (List.length (v :: vals))))%Q).
  { change 0%Q with (inject_Z 0). rewrite <- Zlt_Qlt. cbn [List.length]. lia. }
  split.
  - apply Qle_shift_div_l; [exact Hpos | lra].
  - apply Qle_shift_div_r; [exact Hpos | lra].
Qed.

Lemma overall_rate_bounds {D : Type} (c : Row D -> cell) (rows : list (Row D)) :
  rows <> [] ->
  exists s,
    fmul (np_truediv (series_sum (binary_column (fun r => map_yes_no (c r)) rows))
                     (Z.of_nat (List.length rows))) 100 = Fin s
    /\ (0 <= s <= 100)%Q.
Proof.
  intros Hne. unfold np_truediv, series_sum.
  destruct (Z.eqb_spec (Z.of_nat (List.length rows)) 0) as [H0|Hn0].
  - destruct rows; [contradiction | discriminate].
  - cbn [fmul]. eexists. split; [reflexivity|].
    pose proof (binary_sum_bounds c rows) as [Hlo Hhi].
    pose proof (dropna_length_le (binary_column (fun r => map_yes_no (c r)) rows)) as Hlen.
    unfold binary_column in Hlen at 2. rewrite length_map in Hlen.
    assert (Hpos : (0 < inject_Z (Z.of_nat (List.length rows)))%Q).
    { change 0%Q with (inject_Z 0). rewrite <- Zlt_Qlt. lia. }
    assert (Hle : (inject_Z (Z.of_nat (List.length
                     (dropna (binary_column (fun r => map_yes_no (c r)) rows))))
                   <= inject_Z (Z.of_nat (List.length rows)))%Q).
    { rewrite <- Zle_Qle. lia. }
    set (n := inject_Z (Z.of_nat (List.length rows))) in *.
    set (s := Qsum (dropna (binary_column (fun r => map_yes_no (c r)) rows))) in *.
    assert (H01 : (0 <= s / n <= 1)%Q).
    { split; [apply Qle_shift_div_l | apply Qle_shift_div_r]; try exact Hpos; lra. }
    lra.
Qed.

(** X9. On a table that is not empty the success rate and the readmission
    rate are numbers between 0 and 100, and so are the values that the
    summary holds for them. *)
Theorem overall_rates_are_percentages (df : DataFrame) (Hrows : df <> []) :
  (exists s r : Q,
      success_rate df = Fin s /\ (0 <= s <= 100)%Q
      /\ readmission_rate df = Fin r /\ (0 <= r <= 100)%Q)
  /\ (exists s r : Q,
        Summary.success_rate (summary df) = Fin s /\ (0 <= s <= 100)%Q
        /\ Summary.readmission_rate (summary df) = Fin r /\ (0 <= r <= 100)%Q).
Proof.
  destruct (overall_rate_bounds treatment_success df Hrows) as (s & Hs & Hsb).
  destruct (overall_rate_bounds readmitted df Hrows) as (r & Hr & Hrb).
  cbn [summary Summary.success_rate Summary.readmission_rate].
  unfold success_rate, readmission_rate, total_patients, success_binary, readmitted_binary.
  rewrite Hs, Hr. cbn [fround]. split.
  - exists s, r. tauto.
  - exists (round_to 1 s), (round_to 1 r).
    pose proof (round_to_between 1 0 100 s Hsb). pose proof (round_to_between 1 0 100 r Hrb).
    tauto.
Qed.

Lemma overall_rates_are_percentages_witness :
  exists s r : Q,
    success_rate yes_and_maybe = Fin s /\ (0 <= s <= 100)%Q
    /\ readmission_rate yes_and_maybe = Fin r /\ (0 <= r <= 100)%Q.
Proof.
  apply (overall_rates_are_percentages yes_and_maybe). discriminate.
Defined.

Lemma series_mean_cases (col : list (option Q)) :
  series_mean col = NaN \/ exists m, series_mean col = Fin m.
Proof.
  unfold series_mean. destruct (dropna col); [now left | right; eexists; reflexivity].
Qed.

Lemma group_rate_whole {D : Type} (c : Row D -> cell) (rows : list (Row D)) :
  whole_percentage_or_missing
    (to_percent (fround 2 (series_mean (binary_column (fun r => map_yes_no (c r)) rows)))).
Proof.
  rewrite to_percent_whole.
  destruct (series_mean_cases (binary_column (fun r => map_yes_no (c r)) rows))
    as [Hm|[m Hm]]; rewrite Hm; [now left|].
  right. apply binary_mean_bounds in Hm. cbn [fmul fround].
  exists (round_to 0 (m * 100)), (round_half_even (m * 100 * inject_Z (pow10 0))).
  split; [reflexivity|]. split.
  - rewrite round_to_value. change (inject_Z (pow10 0)) with 1%Q. field.
  - apply round_half_even_between. change (inject_Z (pow10 0)) with 1%Q.
    change (inject_Z 0) with 0%Q. change (inject_Z 100) with 100%Q. lra.
Qed.

(** X10. In the tables by condition, by treatment type and by age group every
    rate is missing or a whole number of percent between 0 and 100. *)
Theorem grouped_rates_are_whole_percentages (observed : bool) (df : DataFrame) :
  (forall e, In e (condition_stats df) ->
             whole_percentage_or_missing (ByCondition.Success_Rate e)
             /\ whole_percentage_or_missing (ByCondition.Readmission_Rate e))
  /\ (forall e, In e (treatment_stats df) ->
                whole_percentage_or_missing (ByTreatment.Success_Rate e))
  /\ (forall e, In e (age_analysis observed df) ->
                whole_percentage_or_missing (ByAgeGroup.Success_Rate e)).
Proof.
  split; [|split]; intros e He; apply in_map_iff in He; destruct He as ([k rows] & <- & _).
  - split.
    + exact (group_rate_whole treatment_success rows).
    + exact (group_rate_whole readmitted rows).
  - exact (group_rate_whole treatment_success rows).
  - exact (group_rate_whole treatment_success rows).
Qed.

(** ** The monthly records of the file *)

(** X12. A record of monthly_trends in the file is the row of the monthly
    table at the same place: the text of its month, its number of
    admissions and its average cost, which the second rounding leaves as
    it is. *)
Theorem trend_records_copy_monthly_table (observed : bool) (df : DataFrame) :
  map (fun e => (Trend.month e, Trend.admissions e, Trend.avg_cost e))
      (Dashboard.monthly_trends (dashboard_data observed df))
  = map (fun m => (period_str (Monthly.admission_month m), Monthly.Admissions m,
                   Monthly.Avg_Cost m))
        (monthly_trends df).
Proof.
  cbn [dashboard_data Dashboard.monthly_trends]. unfold monthly_trends.
  rewrite !map_map. apply map_ext. intros g.
  cbn [trend_record monthly_row Trend.month Trend.admissions Trend.avg_cost
       Monthly.admission_month Monthly.Admissions Monthly.Avg_Cost].
  now rewrite fround_idempotent.
Qed.

(** ** One record per key *)

Lemma series_count_le_length {A B : Type} (f : A -> option B) (l : list A) :
  series_count (map f l) <= Z.of_nat (List.length l).
Proof.
  unfold series_count. pose proof (dropna_length_le (map f l)) as H.
  rewrite length_map in H. lia.
Qed.

Lemma filter_length_le {A : Type} (p : A -> bool) (l : list A) :
  (List.length (filter p l) <= List.length l)%nat.
Proof.
  induction l as [|a l IH]; [reflexivity|]. cbn [filter].
  destruct (p a); cbn [List.length]; lia.
Qed.

Lemma grouped_table_keyed {K T : Type} (cmp : K -> K -> comparison)
      (cmp_eq : forall a b, cmp a b = Eq <-> a = b)
      (cmp_trans : forall a b c, cmp a b = Lt -> cmp b c = Lt -> cmp a c = Lt)
      (cmp_gt : forall a b, cmp a b = Gt -> cmp b a = Lt)
      (key_of : T -> K) (count_of : T -> Z) (row_of : K * DataFrame -> T)
      (column : Encounter -> option K) (df : DataFrame) :
  (forall g, key_of (row_of g) = fst g) ->
  (forall g, count_of (row_of g) = series_count (map patient_id (snd g))) ->
  keyed_table cmp key_of count_of column df (map row_of (groupby cmp column df)).
Proof.
  intros Hkey Hcount.
  assert (Hkeys : map key_of (map row_of (groupby cmp column df))
                  = keys (groupby cmp column df)).
  { rewrite map_map. unfold keys. apply map_ext. exact Hkey. }
  pose proof (groupby_sorted cmp cmp_trans cmp_gt column df) as Hs.
  unfold keyed_table. rewrite Hkeys. split; [exact Hs|]. split.
  { exact (strictly_sorted_NoDup cmp cmp_eq _ Hs). }
  split.
  { intros k. exact (groupby_keys_iff cmp cmp_eq cmp_trans cmp_gt column df k). }
  split.
  - intros e He. apply in_map_iff in He. destruct He as ([k rows] & <- & Hg).
    rewrite Hkey, Hcount. cbn [fst snd].
    now rewrite (groupby_rows cmp cmp_eq cmp_trans cmp_gt column df k rows Hg).
  - rewrite map_map.
    rewrite (map_ext _ (fun g => series_count (map patient_id (snd g))) Hcount).
    rewrite groupby_counts.
    etransitivity; [apply series_count_le_length|].
    apply inj_le, filter_length_le.
Qed.

(** X13. The tables by condition, by treatment type and by insurance type
    hold one record for each value of their column, in increasing order
    of the values (numbers by value, texts by code point), and the
    patient count of a record is the number of identified rows with that
    value; the counts of a table never add up to more than the number of
    rows.  Conditions written as the numbers 10 and 9 are listed as 9,
    10. *)
Theorem label_keyed_tables (df : DataFrame) :
  keyed_table label_cmp ByCondition.condition ByCondition.Patient_Count
              condition df (condition_stats df)
  /\ keyed_table label_cmp ByTreatment.treatment_type ByTreatment.Patient_Count
                 treatment_type df (treatment_stats df)
  /\ keyed_table label_cmp ByInsurance.insurance_type ByInsurance.Patient_Count
                 insurance_type df (insurance_stats df)
  /\ (forall x y : Qc, label_cmp (Number x) (Number y) = Lt <-> (x < y)%Qc)
  /\ (forall a b : string, label_cmp (Text a) (Text b) = String_as_OT.compare a b)
  /\ map ByCondition.condition (condition_stats numbered_conditions)
     = [Number (Q2Qc 9); Number (Q2Qc 10)]
  /\ map ByCondition.condition (condition_stats out_of_order) = [Text "Asthma"; Text "Flu"].
Proof.
  split; [|split; [|split; [|split; [|split; [|split]]]]];
    try (apply (grouped_table_keyed label_cmp label_cmp_eq label_cmp_trans label_cmp_gt);
         reflexivity).
  - intros x y. cbn [label_cmp]. symmetry. apply Qclt_alt.
  - reflexivity.
  - reflexivity.
  - reflexivity.
Qed.

(** X14. The monthly table holds one row for each month in which a row of the
    table was admitted, whatever the day, in chronological order, and its
    number of admissions is the number of identified rows admitted in
    that month. *)
Theorem monthly_table_keyed (df : DataFrame) :
  keyed_table period_cmp Monthly.admission_month Monthly.Admissions
              admission_month df (monthly_trends df)
  /\ forall r t y m,
      In r df -> admission_date r = Some t -> ts_year t = y -> ts_month t = m ->
      In (mkPeriod y m) (map Monthly.admission_month (monthly_trends df)).
Proof.
  assert (Hk : keyed_table period_cmp Monthly.admission_month Monthly.Admissions
                           admission_month df (monthly_trends df)).
  { apply (grouped_table_keyed period_cmp period_cmp_eq period_cmp_trans period_cmp_gt);
      reflexivity. }
  split; [exact Hk|]. intros r t y m Hr Ht <- <-.
  destruct Hk as (_ & _ & Hin & _). apply Hin. exists r. split; [exact Hr|].
  unfold admission_month. now rewrite Ht.
Qed.

(** ** The median and the costly long stays *)

(** A median lies between two cells of its column. *)
Lemma series_median_between (col : list (option Q)) (m : Q) :
  series_median col = Fin m ->
  exists lo hi, In (Some lo) col /\ In (Some hi) col /\ (lo <= m <= hi)%Q.
Proof.
  unfold series_median.
  pose proof (sort_values_sorted (dropna col)) as Hs.
  assert (Hin : forall v, In v (sort_values (dropna col)) -> In (Some v) col).
  { intros v Hv. apply dropna_In.
    apply (Permutation_in v (Permutation_sym (sort_values_perm (dropna col))) Hv). }
  set (s := sort_values (dropna col)) in *. clearbody s.
  set (n := List.length s) in *.
  destruct (Nat.eq_dec n 0) as [H0|Hpos]; [rewrite H0; discriminate|].
  rewrite (nat_case_pos n _ _ Hpos).
  destruct (Nat.even n) eqn:He; intros Hm; apply Fin_inj in Hm; subst m.
  - apply Nat.even_spec in He. destruct He as [h Hh].
    assert (Hdiv : (n / 2 = h)%nat) by (rewrite Hh, Nat.mul_comm; apply Nat.div_mul; lia).
    rewrite Hdiv.
    assert (Hab : (nth (h - 1) s 0 <= nth h s 0)%Q)
      by (apply sorted_nth_le; [exact Hs | fold n; lia]).
    exists (nth (h - 1) s 0%Q), (nth h s 0%Q). split; [|split].
    + apply Hin, nth_In. fold n. lia.
    + apply Hin, nth_In. fold n. lia.
    + split; [apply Qle_shift_div_l | apply Qle_shift_div_r]; lra.
  - assert (Hlt : (n / 2 < n)%nat) by (apply Nat.div_lt; lia).
    exists (nth (n / 2) s 0%Q), (nth (n / 2) s 0%Q).
    split; [|split]; try (apply Hin, nth_In; exact Hlt). lra.
Qed.

Lemma float_gt_cell (c : option Q) (m : Q) :
  float_gt (of_cell c) (Fin m) = true <-> exists x, c = Some x /\ (m < x)%Q.
Proof.
  destruct c as [x|]; cbn [of_cell float_gt].
  - rewrite Qltb_lt. split; [intros H; now exists x | intros (y & [= ->] & H); exact H].
  - split; [discriminate | intros (y & H & _); discriminate].
Qed.

Lemma filter_none {A : Type} (p : A -> bool) (l : list A) :
  (forall a, In a l -> p a = false) -> filter p l = [].
Proof.
  induction l as [|a l IH]; intros Hall; [reflexivity|]. cbn [filter].
  rewrite (Hall a (or_introl eq_refl)). apply IH. intros x Hx. apply Hall. now right.
Qed.

(** X2. No row is selected when all the costs of the table are equal, or all
    its stays. *)
Theorem expensive_long_stay_empty_on_equal_values (df : DataFrame) (c : Q)
        (Hequal : (forall r x, In r df -> total_cost r = Some x -> (x == c)%Q)
                  \/ (forall r x, In r df -> length_of_stay r = Some x -> (x == c)%Q)) :
  expensive_long_stay df = [].
Proof.
  unfold expensive_long_stay. apply filter_none. intros r Hr.
  assert (Hcol : forall f : Encounter -> option Q,
             (forall r x, In r df -> f r = Some x -> (x == c)%Q) ->
             float_gt (of_cell (f r)) (series_median (map f df)) = false).
  { intros f Hf. destruct (series_median_finite_or_missing (map f df)) as [Hm|[m Hm]];
      rewrite Hm.
    - destruct (f r); reflexivity.
    - apply not_true_iff_false. rewrite float_gt_cell. intros (x & Hx & Hlt).
      destruct (series_median_between _ _ Hm) as (lo & hi & Hlo & _ & Hle & _).
      apply in_map_iff in Hlo. destruct Hlo as (r' & Hr' & Hin').
      pose proof (Hf r' lo Hin' Hr') as H1. pose proof (Hf r x Hr Hx) as H2. lra. }
  destruct Hequal as [H|H].
  - rewrite (Hcol total_cost H). reflexivity.
  - rewrite (Hcol length_of_stay H). apply andb_false_r.
Qed.

Lemma expensive_long_stay_empty_on_equal_values_witness :
  expensive_long_stay same_cost_twice = [].
Proof.
  apply (expensive_long_stay_empty_on_equal_values same_cost_twice 150).
  left. intros r x [<-|[<-|[]]] [= <-]; reflexivity.
Defined.

(** ** The threshold is the median *)















(** ** A table without any condition *)

Lemma idx_best_empty_iff {K : Type} (better : float64 -> float64 -> bool)
      (col : list (K * float64)) :
  idx_best better col = Fault ArgOfEmpty <-> col = [].
Proof.
  unfold idx_best. destruct col as [|c col]; [tauto|].
  destruct (arg_best better (c :: col)) as [[k v]|]; split; discriminate.
Qed.

(** X6. The run dies as it does on the empty table exactly when no row has a
    condition. *)
Theorem run_dies_of_empty_table_iff (observed : bool) (df : DataFrame) :
  analysis observed df = Fault ArgOfEmpty <-> forall r, In r df -> condition r = None.
Proof.
  assert (Hempty : condition_stats df = [] <-> forall r, In r df -> condition r = None).
  { unfold condition_stats. split.
    - intros Hnil r Hr. destruct (condition r) as [c|] eqn:Hc; [|reflexivity].
      pose proof (groupby_complete label_cmp label_cmp_eq label_cmp_trans label_cmp_gt
                                   condition df r c Hr Hc) as Hg.
      apply map_eq_nil in Hnil. rewrite Hnil in Hg. contradiction.
    - intros Hall. destruct (groupby label_cmp condition df) as [|[k rows] gs] eqn:Hg;
        [reflexivity|].
      assert (Hk : In k (keys (groupby label_cmp condition df)))
        by (rewrite Hg; now left).
      apply groupby_keys_from_rows in Hk. destruct Hk as (r & Hr & Hc).
      rewrite (Hall r Hr) in Hc. discriminate. }
  rewrite <- Hempty. unfold analysis, key_findings, idxmax, idxmin,
                       Success_Rate_column, Avg_Cost_column.
  destruct (condition_stats df) as [|e cs]; [split; reflexivity|].
  split; [|discriminate]. cbn [map].
  match goal with |- context [idx_best float_gt (?c :: ?l)] => set (col := c :: l) end.
  assert (Hb : forall better, idx_best better col <> Fault ArgOfEmpty).
  { intros better H. apply idx_best_empty_iff in H. discriminate. }
  destruct (idx_best float_gt col) as [b|fb] eqn:H1; cbn [bind].
  - destruct (idx_best (fun a b0 => float_gt b0 a) col) as [w|fw] eqn:H2; cbn [bind].
    + match goal with |- context [idx_best float_gt (?c :: ?l)] => set (col2 := c :: l) end.
      destruct (idx_best float_gt col2) as [m|fm] eqn:H3; cbn [bind]; [discriminate|].
      intros [= ->]. apply idx_best_empty_iff in H3. discriminate.
    + intros [= ->]. now apply Hb in H2.
  - intros [= ->]. now apply Hb in H1.
Qed.

(** ** The table by age group *)

Lemma filter_map_fst {A B : Type} (f : A -> B) (p : B -> bool) (l : list A) :
  map fst (filter (fun g => p (snd g)) (map (fun a => (a, f a)) l))
  = filter (fun a => p (f a)) l.
Proof.
  induction l as [|a l IH]; [reflexivity|]. cbn [map filter snd].
  destruct (p (f a)); cbn [map fst]; now rewrite IH.
Qed.

Lemma nonempty_filter {A : Type} (p : A -> bool) (l : list A) :
  match filter p l with [] => false | _ => true end = existsb p l.
Proof.
  induction l as [|a l IH]; [reflexivity|]. cbn [filter existsb].
  destruct (p a); [reflexivity | exact IH].
Qed.

(** X15. The table by age group lists its buckets in the order Young, Middle,
    Senior, Elderly, not in alphabetical order: all four of them when
    the grouping keeps the buckets without rows, and otherwise those in
    which some row fell; its patient counts are those of the identified
    rows of each bucket. *)
Theorem age_table_in_bucket_order (observed : bool) (df : DataFrame) :
  map ByAgeGroup.age_group (age_analysis observed df)
  = map age_label
        (if observed
         then filter (fun g => existsb (has_category AgeGroup_eqb age_group g) df) age_labels
         else age_labels)
  /\ (forall e, In e (age_analysis observed df) ->
                exists g, ByAgeGroup.age_group e = age_label g
                          /\ ByAgeGroup.Patient_Count e
                             = series_count
                                 (map patient_id
                                      (filter (has_category AgeGroup_eqb age_group g) df)))
  /\ Zsum (map ByAgeGroup.Patient_Count (age_analysis observed df))
     <= Z.of_nat (List.length df).
Proof.
  split; [|split].
  - unfold age_analysis, age_groups, groupby_categorical. rewrite map_map.
    cbn [age_row ByAgeGroup.age_group].
    rewrite <- (map_map fst age_label). f_equal.
    destruct observed.
    + unfold nonempty_group.
      rewrite (filter_map_fst (fun c => filter (has_category AgeGroup_eqb age_group c) df)
                              (fun rows => match rows with [] => false | _ => true end)).
      apply filter_ext. intros g. apply nonempty_filter.
    + rewrite map_map. cbn [fst]. apply map_id.
  - intros e He. apply in_map_iff in He. destruct He as ([g rows] & <- & Hin).
    apply age_groups_rows in Hin. subst rows. exists g. split; reflexivity.
  - rewrite Patient_Count_by_age, age_groups_counts.
    etransitivity; [apply series_count_le_length|]. apply inj_le, filter_length_le.
Qed.

(** * The summary read back from the file *)

Lemma numeral_digits (u : uint) : numeral (NilEmpty.string_of_uint u) = true.
Proof.
  induction u; cbn [NilEmpty.string_of_uint numeral]; try reflexivity; exact IHu.
Qed.

Lemma digit_not_point (c : ascii) : is_digit c = true -> Ascii.eqb c "." = false.
Proof.
  destruct c as [[] [] [] [] [] [] [] []]; try discriminate; reflexivity.
Qed.

Lemma split_numeral (a b : string) :
  numeral a = true -> split_at_point (a ++ String "." b) = Some (a, b).
Proof.
  induction a as [|c a IH]; cbn [numeral append split_at_point]; intros H.
  - reflexivity.
  - apply andb_true_iff in H. destruct H as [Hc Ha].
    rewrite (digit_not_point c Hc), (IH Ha). reflexivity.
Qed.

Lemma split_none (a : string) : numeral a = true -> split_at_point a = None.
Proof.
  induction a as [|c a IH]; cbn [numeral split_at_point]; intros H; [reflexivity|].
  apply andb_true_iff in H. destruct H as [Hc Ha].
  rewrite (digit_not_point c Hc), (IH Ha). reflexivity.
Qed.

Lemma digits_of_normal (n : Z) : unorm (digits_of n) = digits_of n.
Proof.
  unfold digits_of. rewrite <- (DecimalN.Unsigned.to_of (N.to_uint (Z.to_N n))).
  now rewrite DecimalN.Unsigned.of_to.
Qed.

Lemma digits_of_nonnil (n : Z) : digits_of n <> Nil.
Proof.
  rewrite <- digits_of_normal. apply DecimalFacts.unorm_nonnil.
Qed.

Lemma natural_of_digits (n : Z) :
  0 <= n -> natural_of (NilEmpty.string_of_uint (digits_of n)) = Some n.
Proof.
  intros Hn. unfold natural_of. rewrite NilEmpty.usu, digits_of_normal.
  rewrite (Decimal.internal_uint_dec_lb _ _ eq_refl).
  unfold number_of, digits_of. rewrite DecimalN.Unsigned.of_to, Z2N.id by exact Hn.
  reflexivity.
Qed.

Lemma starts_with_digit_digits (u : uint) :
  u <> Nil -> starts_with_digit (NilEmpty.string_of_uint u) = true.
Proof.
  destruct u; [congruence | reflexivity ..].
Qed.

Lemma starts_with_digit_app (a b : string) :
  starts_with_digit a = true -> starts_with_digit (a ++ b) = true.
Proof.
  destruct a; [discriminate | exact (fun H => H)].
Qed.

Lemma fraction_value_cons (d : Z) (u : uint) :
  0 <= d <= 9 -> (fraction_value (cons_digit d u) == (inject_Z d + fraction_value u) / 10)%Q.
Proof.
  intros Hd.
  assert (H : d = 0 \/ d = 1 \/ d = 2 \/ d = 3 \/ d = 4 \/ d = 5 \/ d = 6 \/ d = 7
              \/ d = 8 \/ d = 9) by lia.
  repeat (destruct H as [->|H]); try subst d; reflexivity.
Qed.

Lemma cons_digit_nonnil (d : Z) (u : uint) : cons_digit d u <> Nil.
Proof.
  unfold cons_digit. destruct d as [|p|p]; try discriminate.
  repeat (destruct p as [p|p|]; try discriminate).
Qed.

(** The digits of a fraction that has at most [fuel] of them give the
    fraction back. *)
Lemma fraction_digits_value (fuel : nat) : forall (n : nat) (r : Q),
  (n <= fuel)%nat -> (0 <= r)%Q -> (r < 1)%Q ->
  (exists k : Z, (r * inject_Z (pow10 n) == inject_Z k)%Q) ->
  (fraction_value (fraction_digits fuel r) == r)%Q.
Proof.
  induction fuel as [|fuel IH]; intros n r Hn H0 H1 [k Hk].
  - assert (n = 0%nat) by lia. subst n. change (inject_Z (pow10 0)) with 1%Q in Hk.
    cbn [fraction_digits fraction_value].
    assert (Hr : (r == inject_Z k)%Q) by (rewrite <- Hk; ring).
    assert (Hk0 : k = 0).
    { assert (Ha : (inject_Z 0 <= inject_Z k)%Q) by (rewrite <- Hr; exact H0).
      assert (Hb : (inject_Z k < inject_Z 1)%Q) by (rewrite <- Hr; exact H1).
      rewrite <- Zle_Qle in Ha. rewrite <- Zlt_Qlt in Hb. lia. }
    subst k. rewrite Hr. reflexivity.
  - cbn [fraction_digits].
    set (t := (r * 10)%Q). set (d := Qfloor t). set (rest := (t - inject_Z d)%Q).
    pose proof (Qfloor_le t) as Hlo. pose proof (Qlt_floor t) as Hhi. fold d in Hlo, Hhi.
    rewrite inject_Z_plus in Hhi. change (inject_Z 1) with 1%Q in Hhi.
    assert (Hd : 0 <= d <= 9).
    { assert (Ha : (inject_Z 0 < inject_Z (d + 1))%Q).
      { rewrite inject_Z_plus. change (inject_Z 0) with 0%Q. change (inject_Z 1) with 1%Q.
        unfold t in *. lra. }
      assert (Hb : (inject_Z d < inject_Z 10)%Q).
      { change (inject_Z 10) with 10%Q. unfold t in *. lra. }
      rewrite <- Zlt_Qlt in Ha, Hb. lia. }
    rewrite (fraction_value_cons d _ Hd).
    destruct (Qeq_bool rest 0) eqn:Hz.
    + apply Qeq_bool_eq in Hz. cbn [fraction_value]. unfold rest, t in *.
      apply Qmult_inj_r with 10%Q; [lra|]. field_simplify. lra.
    + assert (Hrest : (fraction_value (fraction_digits fuel rest) == rest)%Q).
      { destruct n as [|n].
        - exfalso. change (inject_Z (pow10 0)) with 1%Q in Hk.
          assert (Hr : (r == inject_Z k)%Q) by (rewrite <- Hk; ring).
          assert (Hk0 : k = 0).
          { assert (Ha : (inject_Z 0 <= inject_Z k)%Q) by (rewrite <- Hr; exact H0).
            assert (Hb : (inject_Z k < inject_Z 1)%Q) by (rewrite <- Hr; exact H1).
            rewrite <- Zle_Qle in Ha. rewrite <- Zlt_Qlt in Hb. lia. }
          subst k. change (inject_Z 0) with 0%Q in Hr.
          assert (Ht : (t == 0)%Q) by (unfold t; rewrite Hr; ring).
          assert (Hd0 : d = 0).
          { unfold d. rewrite (Qfloor_comp _ _ Ht). reflexivity. }
          assert (Hrz : (rest == 0)%Q) by (unfold rest; rewrite Ht, Hd0; reflexivity).
          apply Qeq_eq_bool in Hrz. congruence.
        - apply (IH n); [lia | unfold rest; lra | unfold rest; lra |].
          exists (k + - (d * pow10 n)). unfold rest, t.
          rewrite inject_Z_plus, inject_Z_opp, inject_Z_mult, <- Hk.
          unfold pow10. rewrite Nat2Z.inj_succ, Z.pow_succ_r by lia.
          rewrite inject_Z_mult. change (inject_Z 10) with 10%Q. ring. }
      rewrite Hrest. unfold rest, t. field.
Qed.

Lemma digit_text_no_constant (s : string) :
  starts_with_digit s = true ->
  (s =? "NaN")%string = false /\ (s =? "Infinity")%string = false
  /\ (s =? "-Infinity")%string = false
  /\ exists c s', s = String c s' /\ Ascii.eqb c "-" = false.
Proof.
  destruct s as [|c s]; [discriminate|]. cbn [starts_with_digit]. intros Hc.
  assert (HN : Ascii.eqb c "N" = false /\ Ascii.eqb c "I" = false /\ Ascii.eqb c "-" = false).
  { clear -Hc. destruct c as [[] [] [] [] [] [] [] []]; try discriminate; repeat split. }
  destruct HN as (HN & HI & HM). cbn [String.eqb]. rewrite HN, HI, HM.
  repeat split. exists c, s. auto.
Qed.

Lemma positional_starts_with_digit (q : Q) : starts_with_digit (positional q) = true.
Proof.
  unfold positional. apply starts_with_digit_app, starts_with_digit_digits, digits_of_nonnil.
Qed.

Lemma positional_reads (q : Q) (n : nat) :
  (0 <= q)%Q -> (n <= 17)%nat ->
  (exists k : Z, (q * inject_Z (pow10 n) == inject_Z k)%Q) ->
  exists v, unsigned_literal (positional q) = Some (Fraction v) /\ (v == q)%Q.
Proof.
  intros Hq Hn [k Hk]. unfold positional, unsigned_literal.
  pose proof (Qfloor_le q) as Hlo. pose proof (Qlt_floor q) as Hhi.
  rewrite inject_Z_plus in Hhi. change (inject_Z 1) with 1%Q in Hhi.
  assert (Hi : 0 <= Qfloor q).
  { assert (Ha : (inject_Z 0 < inject_Z (Qfloor q + 1))%Q).
    { rewrite inject_Z_plus. change (inject_Z 0) with 0%Q. change (inject_Z 1) with 1%Q. lra. }
    rewrite <- Zlt_Qlt in Ha. lia. }
  set (r := (q - inject_Z (Qfloor q))%Q).
  change (String.append "." ?x) with (String "." x).
  cbn [append]. rewrite (split_numeral _ _ (numeral_digits _)).
  rewrite (natural_of_digits _ Hi), NilEmpty.usu.
  assert (Hv : (fraction_value (fraction_digits 17 r) == r)%Q).
  { apply (fraction_digits_value 17 n); [exact Hn | unfold r; lra | unfold r; lra |].
    exists (k + - (Qfloor q * pow10 n)). unfold r.
    rewrite inject_Z_plus, inject_Z_opp, inject_Z_mult, <- Hk. ring. }
  destruct (fraction_digits 17 r) as [|f|f|f|f|f|f|f|f|f|f] eqn:Hf;
    [exfalso; revert Hf; cbn [fraction_digits]; apply cons_digit_nonnil | ..];
    (eexists; split; [reflexivity | rewrite Hv; unfold r; ring]).
Qed.

(** A number of at most 17 digits after the point, in lowest terms, is
    read back from its text. *)
Lemma float_round_trip (q : Q) (n : nat) :
  (n <= 17)%nat -> Qred q = q ->
  (exists k : Z, (q * inject_Z (pow10 n) == inject_Z k)%Q) ->
  json_loads_number (json_dumps_float (Fin q)) = Some (JFloat (Fin q)).
Proof.
  intros Hn Hred [k Hk]. unfold json_dumps_float.
  destruct (Qltb q 0) eqn:Hneg.
  - apply Qltb_lt in Hneg.
    destruct (positional_reads (- q) n) as (v & Hv & Hvq); [lra | exact Hn | |].
    { exists (- k). rewrite inject_Z_opp, <- Hk. ring. }
    destruct (digit_text_no_constant _ (positional_starts_with_digit (- q)))
      as (_ & HI & _ & _).
    unfold json_loads_number. cbn [String.eqb Ascii.eqb Bool.eqb andb]. rewrite HI.
    rewrite Hv. cbn [option_map signed]. do 3 f_equal.
    rewrite <- Hred. apply Qred_complete. rewrite Hvq. ring.
  - apply Qltb_ge in Hneg.
    destruct (positional_reads q n) as (v & Hv & Hvq); [exact Hneg | exact Hn | now exists k |].
    destruct (digit_text_no_constant _ (positional_starts_with_digit q))
      as (HN & HI & HM & c & s' & Hs & Hc).
    unfold json_loads_number. rewrite HN, HI, HM. rewrite Hs at 1. rewrite Hc, Hv.
    cbn [option_map signed]. do 3 f_equal.
    rewrite <- Hred. now apply Qred_complete.
Qed.

Lemma float_round_trip_rounded (d : nat) (x : float64) :
  (d <= 17)%nat ->
  json_loads_number (json_dumps_float (fround d x)) = Some (JFloat (fround d x)).
Proof.
  intros Hd. destruct x as [q| | |]; try reflexivity. cbn [fround].
  apply (float_round_trip _ d Hd).
  - unfold round_to. apply Qred_involutive.
  - exists (round_half_even (q * inject_Z (pow10 d))). rewrite round_to_value.
    pose proof (pow10_pos d). field. lra.
Qed.

Lemma int_round_trip (z : Z) : json_loads_number (json_dumps_int z) = Some (JInt z).
Proof.
  unfold json_dumps_int. destruct (Z.ltb_spec z 0) as [Hneg|Hpos].
  - pose proof (digits_of_nonnil (- z)) as Hnn.
    destruct (digit_text_no_constant _ (starts_with_digit_digits _ Hnn)) as (_ & HI & _ & _).
    unfold json_loads_number. cbn [String.eqb Ascii.eqb Bool.eqb andb]. rewrite HI.
    unfold unsigned_literal. rewrite (split_none _ (numeral_digits _)).
    rewrite natural_of_digits by lia. cbn [option_map signed]. now rewrite Z.opp_involutive.
  - pose proof (digits_of_nonnil z) as Hnn.
    destruct (digit_text_no_constant _ (starts_with_digit_digits _ Hnn))
      as (HN & HI & HM & c & s' & Hs & Hc).
    unfold json_loads_number. rewrite HN, HI, HM. rewrite Hs at 1. rewrite Hc.
    unfold unsigned_literal. rewrite (split_none _ (numeral_digits _)).
    rewrite natural_of_digits by lia. reflexivity.
Qed.

(** Whatever the rounded values, the summary is read back from its text. *)
Lemma read_summary_items (n : Z) (a c s r : float64) :
  read_summary (summary_items (Summary.mk n (fround 1 a) (fround 2 c) (fround 1 s) (fround 1 r)))
  = Some (Summary.mk n (fround 1 a) (fround 2 c) (fround 1 s) (fround 1 r)).
Proof.
  unfold read_summary, loaded, summary_items.
  cbn [member String.eqb Ascii.eqb Bool.eqb andb Summary.total_patients Summary.avg_stay
       Summary.avg_cost Summary.success_rate Summary.readmission_rate].
  rewrite int_round_trip, !float_round_trip_rounded by lia. reflexivity.
Qed.

Lemma float_eq_refl (x : float64) : float_eq x x = negb (is_nan x).
Proof.
  destruct x as [q| | |]; cbn [is_nan float_eq negb]; try reflexivity.
  apply Qeq_eq_bool. reflexivity.
Qed.

(** A summary compares equal to itself exactly when it holds no NaN. *)
Lemma summary_eq_refl (s : Summary.t) : summary_eq s s = no_nan s.
Proof.
  unfold summary_eq, no_nan. now rewrite Z.eqb_refl, !float_eq_refl.
Qed.

(** C6, as amended.  When the run completes, the summary object that is
    written to the file is read back as the five scalars computed from
    the table, and a scalar read back compares equal to the computed one
    unless it is NaN: the five compare equal exactly when none of them is
    NaN.  The average stay is NaN when no row has a length of stay, and
    the number of patients read back is the number of rows.  The texts
    of the numbers are read back as the numbers whatever the rounded
    values are; the three encounters give the texts 3, 2.0, 200.0, 33.3
    and 0.0. *)
Theorem summary_round_trip (observed : bool) (df : DataFrame) (d : Dashboard.t)
        (Hrun : analysis observed df = Ok d) :
  (exists s,
      read_summary (summary_items (Dashboard.summary d)) = Some s
      /\ s = summary df
      /\ Summary.total_patients s = Z.of_nat (List.length df)
      /\ summary_eq s (summary df) = no_nan (summary df))
  /\ ((forall r, In r df -> length_of_stay r = None) ->
      Summary.avg_stay (summary df) = NaN /\ no_nan (summary df) = false)
  /\ (forall (n : Z) (a c s r : float64),
        read_summary
          (summary_items (Summary.mk n (fround 1 a) (fround 2 c) (fround 1 s) (fround 1 r)))
        = Some (Summary.mk n (fround 1 a) (fround 2 c) (fround 1 s) (fround 1 r)))
  /\ (forall x : float64, float_eq x x = negb (is_nan x))
  /\ (forall s : Summary.t, summary_eq s s = no_nan s)
  /\ (forall z : Z, json_loads_number (json_dumps_int z) = Some (JInt z))
  /\ (forall (digits : nat) (x : float64),
        (digits <= 17)%nat ->
        json_loads_number (json_dumps_float (fround digits x)) = Some (JFloat (fround digits x)))
  /\ summary_items (summary three_encounters)
     = [ ("total_patients", "3"); ("avg_stay", "2.0"); ("avg_cost", "200.0");
         ("success_rate", "33.3"); ("readmission_rate", "0.0") ]%string
  /\ no_nan (summary three_encounters) = true.
Proof.
  split; [|split; [|split; [exact read_summary_items
                           |split; [exact float_eq_refl
                           |split; [exact summary_eq_refl
                                   |split; [exact int_round_trip
                                           |split; [exact float_round_trip_rounded
                                                   |split; reflexivity]]]]]]].
  - assert (Hd : d = dashboard_data observed df) by (apply analysis_writes in Hrun; tauto).
    subst d. cbn [dashboard_data Dashboard.summary].
    exists (summary df). split; [apply read_summary_items|]. split; [reflexivity|].
    split; [reflexivity | apply summary_eq_refl].
  - intros Hnone.
    assert (Hnan : avg_length_stay df = NaN).
    { unfold avg_length_stay.
      destruct (series_mean_cases (map length_of_stay df)) as [Hm|[m Hm]]; [exact Hm|].
      exfalso.
      assert (Hp : is_nan (series_mean (map length_of_stay df)) = false) by now rewrite Hm.
      apply series_mean_present, cell_column_present in Hp.
      destruct Hp as (r & Hr & Hs). exact (Hs (Hnone r Hr)). }
    unfold no_nan. cbn [summary Summary.avg_stay]. rewrite Hnan. split; reflexivity.
Qed.

Lemma summary_round_trip_witness :
  exists s,
    read_summary (summary_items (Dashboard.summary (dashboard_data false three_encounters)))
    = Some s
    /\ s = summary three_encounters
    /\ Summary.total_patients s = 3
    /\ summary_eq s (summary three_encounters) = true.
Proof.
  exact (proj1 (summary_round_trip false three_encounters
                  (dashboard_data false three_encounters) eq_refl)).
Defined.

(** C6, as stated, fails: on a table in which no row has a length of
    stay the run completes and the average stay of the summary is NaN.
    It is written to the file as NaN (which is no number of JSON) and
    read back as NaN, and NaN is not equal to NaN: the scalar read back
    does not compare equal to the computed one. *)
Lemma summary_round_trip_counterexample :
  analysis false no_stays = Ok (dashboard_data false no_stays)
  /\ Summary.avg_stay (summary no_stays) = NaN
  /\ summary_items (Dashboard.summary (dashboard_data false no_stays))
     = [ ("total_patients", "1"); ("avg_stay", "NaN"); ("avg_cost", "100.0");
         ("success_rate", "100.0"); ("readmission_rate", "0.0") ]%string
  /\ loaded "avg_stay" (summary_items (Dashboard.summary (dashboard_data false no_stays)))
     = Some (JFloat NaN)
  /\ read_summary (summary_items (Dashboard.summary (dashboard_data false no_stays)))
     = Some (summary no_stays)
  /\ float_eq NaN (Summary.avg_stay (summary no_stays)) = false
  /\ summary_eq (summary no_stays) (summary no_stays) = false.
Proof.
  repeat split; reflexivity.
Qed.
